(** * eth-shamir: the secret-sharing engine, its password layer and the commands

    A shallow embedding of [src/utils/shamir.ts] (class [ShamirSecretSharing])
    and [src/utils/encryption.ts] (class [EncryptionUtils]).

    - JavaScript strings are sequences of UTF-16 code units ([jsstring]).
    - Node's [Buffer] conversions used by the engine ("utf8" and "hex", both
      directions) are written out as executable functions.
    - The two third-party packages the engine delegates to, secrets.js-grempe
      ([secrets.share], [secrets.combine]) and crypto-js ([CryptoJS.AES]), are
      an interface ([Libraries]); what the engine needs from them is stated
      as named contracts and taken as hypotheses where a theorem needs it.
    - The commands of [src/commands/] come after the engine: the key check
      of [create], the files [create] and [generate] write, [restoreKey]
      and [validateShares] from the loading of the shares to the printed
      secret, and the file names of [PDFGenerator].  The file system and
      the prompt are arguments; console output other than the result is
      left out.
    - Exceptions are values: [Err message].  Entropy and any state internal
      to the packages live in an explicit [World] that is threaded through
      every call that may touch it. *)

From Stdlib Require Import ZArith List Bool Lia.
From Stdlib Require Import Ascii String.
From Stdlib Require Import DecimalPos.
Import ListNotations.
Local Open Scope Z_scope.

(* ================================================================== *)
(** ** JavaScript strings *)

Module JS.

(** A string is its list of UTF-16 code units. *)
Abbreviation jsstring := (list Z) (only parsing).

(** A string literal of the source (ASCII text). *)
Definition js (s : string) : jsstring :=
  map (fun a => Z.of_N (N_of_ascii a)) (list_ascii_of_string s).

(** [.length], of a string or of an array. *)
Definition len {A} (s : list A) : Z := Z.of_nat (List.length s).

(** [s.startsWith(prefix)] *)
Fixpoint startsWith (s prefix : jsstring) {struct prefix} : bool :=
  match prefix, s with
  | [], _ => true
  | _ :: _, [] => false
  | p :: prefix', c :: s' => (c =? p) && startsWith s' prefix'
  end.

(** [s.substring(n)] for a literal [n >= 0] *)
Definition substring (n : nat) (s : jsstring) : jsstring := skipn n s.

(** [s.split(sep)] for a one-unit separator: the pieces between separators. *)
Fixpoint split (sep : Z) (s : jsstring) : list jsstring :=
  match s with
  | [] => [[]]
  | c :: s' =>
      if c =? sep then [] :: split sep s'
      else match split sep s' with
           | piece :: pieces => (c :: piece) :: pieces
           | [] => [[c]]
           end
  end.

Definition between (lo hi c : Z) : bool := (lo <=? c) && (c <=? hi).

(** The character class [[0-9a-fA-F]]. *)
Definition is_hex_digit (c : Z) : bool :=
  between 48 57 c || between 97 102 c || between 65 70 c.

(** The character class [[a-z]]. *)
Definition is_lower (c : Z) : bool := between 97 122 c.

(** The character class [\s] of ECMAScript: white space and line
    terminators. *)
Definition is_space (c : Z) : bool :=
  between 9 13 c || (c =? 32) || (c =? 160) || (c =? 5760)
  || between 8192 8202 c || (c =? 8232) || (c =? 8233) || (c =? 8239)
  || (c =? 8287) || (c =? 12288) || (c =? 65279).

(** The character class [[\x20-\x7E]]. *)
Definition is_printable (c : Z) : bool := between 32 126 c.

(** [/^[class]+$/.test(s)]: non-empty and every unit in the class (without
    the [m] flag, [$] only matches at the end of the input). *)
Definition test_all (cls : Z -> bool) (s : jsstring) : bool :=
  match s with
  | [] => false
  | _ :: _ => forallb cls s
  end.

(** [/[class]/.test(s)]: some unit in the class. *)
Definition test_some (cls : Z -> bool) (s : jsstring) : bool := existsb cls s.

(** [s.replace(/^0+/, "")]: drop the leading run of the digit 0. *)
Fixpoint strip_leading_zeros (s : jsstring) : jsstring :=
  match s with
  | c :: s' => if c =? 48 then strip_leading_zeros s' else s
  | [] => []
  end.

(** [s || d] on strings: the empty string is falsy. *)
Definition or_else (s d : jsstring) : jsstring :=
  match s with [] => d | _ :: _ => s end.

Definition eqb (a b : jsstring) : bool :=
  if list_eq_dec Z.eq_dec a b then true else false.

End JS.
Export JS.

(* ================================================================== *)
(** ** Node's Buffer: the "hex" and "utf8" encodings *)

Module Buffer.

(** Lower-case hexadecimal digit of a nibble. *)
Definition hex_digit (d : Z) : Z := if d <? 10 then 48 + d else 87 + d.

(** Value of a hexadecimal digit, either case. *)
Definition hex_value (c : Z) : option Z :=
  if between 48 57 c then Some (c - 48)
  else if between 97 102 c then Some (c - 87)
  else if between 65 70 c then Some (c - 55)
  else None.

(** [buf.toString("hex")]: two lower-case digits per byte. *)
Fixpoint toString_hex (bytes : list Z) : jsstring :=
  match bytes with
  | [] => []
  | b :: bytes' => hex_digit (b / 16) :: hex_digit (b mod 16) :: toString_hex bytes'
  end.

(** [Buffer.from(s, "hex")]: decodes pairs of digits, stops at the first
    pair that is not hexadecimal, and drops a trailing single digit. *)
Fixpoint from_hex (s : jsstring) : list Z :=
  match s with
  | hi :: lo :: s' =>
      match hex_value hi, hex_value lo with
      | Some h, Some l => (16 * h + l) :: from_hex s'
      | _, _ => []
      end
  | _ => []
  end.

Definition is_high_surrogate (c : Z) : bool := between 55296 56319 c.
Definition is_low_surrogate (c : Z) : bool := between 56320 57343 c.

(** UTF-8 bytes of one code point (the bit fields written as quotients
    and remainders). *)
Definition utf8_of_code_point (cp : Z) : list Z :=
  if cp <? 128 then [cp]
  else if cp <? 2048 then [192 + cp / 64; 128 + cp mod 64]
  else if cp <? 65536 then
    [224 + cp / 4096; 128 + (cp / 64) mod 64; 128 + cp mod 64]
  else
    [240 + cp / 262144; 128 + (cp / 4096) mod 64; 128 + (cp / 64) mod 64;
     128 + cp mod 64].

(** The bytes of U+FFFD, written for an unpaired surrogate. *)
Definition replacement_bytes : list Z := [239; 191; 189].

(** [Buffer.from(s, "utf8")]: surrogate pairs become one code point, an
    unpaired surrogate becomes U+FFFD. *)
Fixpoint from_utf8 (s : jsstring) : list Z :=
  match s with
  | [] => []
  | c :: s' =>
      if is_high_surrogate c then
        match s' with
        | d :: s'' =>
            if is_low_surrogate d then
              utf8_of_code_point (65536 + (c - 55296) * 1024 + (d - 56320))
                ++ from_utf8 s''
            else replacement_bytes ++ from_utf8 s'
        | [] => replacement_bytes
        end
      else if is_low_surrogate c then replacement_bytes ++ from_utf8 s'
      else utf8_of_code_point c ++ from_utf8 s'
  end.

(** Decoder state between the bytes of a multi-byte sequence: the code
    point so far, the continuation bytes still needed, and the range the
    next byte must lie in. *)
Inductive pending := Pending (code_point needed lower upper : Z).

(** A byte met outside a sequence. *)
Definition lead (b : Z) : list Z * option pending :=
  if b <=? 127 then ([b], None)
  else if between 194 223 b then ([], Some (Pending (b mod 32) 1 128 191))
  else if between 224 239 b then
    ([], Some (Pending (b mod 16) 2
                 (if b =? 224 then 160 else 128) (if b =? 237 then 159 else 191)))
  else if between 240 244 b then
    ([], Some (Pending (b mod 8) 3
                 (if b =? 240 then 144 else 128) (if b =? 244 then 143 else 191)))
  else ([65533], None).

(** The code points of a byte sequence; every ill-formed maximal subpart
    becomes U+FFFD and decoding resumes at the offending byte. *)
Fixpoint code_points (st : option pending) (bytes : list Z) : list Z :=
  match bytes with
  | [] => match st with None => [] | Some _ => [65533] end
  | b :: bytes' =>
      match st with
      | None => let (out, st') := lead b in out ++ code_points st' bytes'
      | Some (Pending cp needed lower upper) =>
          if between lower upper b then
            let cp' := cp * 64 + b mod 64 in
            if needed =? 1 then cp' :: code_points None bytes'
            else code_points (Some (Pending cp' (needed - 1) 128 191)) bytes'
          else
            let (out, st') := lead b in
            65533 :: out ++ code_points st' bytes'
      end
  end.

(** UTF-16 code units of a code point. *)
Definition utf16_of_code_point (cp : Z) : list Z :=
  if cp <? 65536 then [cp]
  else [55296 + (cp - 65536) / 1024; 56320 + (cp - 65536) mod 1024].

(** [buf.toString("utf8")] *)
Definition toString_utf8 (bytes : list Z) : jsstring :=
  flat_map utf16_of_code_point (code_points None bytes).

End Buffer.

(* ================================================================== *)
(** ** Secret encoder and decoder ([shamir.ts], private methods) *)

(** [stringToHex]: a string of hexadecimal digits is used as it is, padded
    to whole bytes; anything else is the hex of its UTF-8 bytes. *)
Definition stringToHex (str : jsstring) : jsstring :=
  if test_all is_hex_digit str then
    (if negb (len str mod 2 =? 0) then js "0" ++ str else str)
  else Buffer.toString_hex (Buffer.from_utf8 str).

(** [hexToString].  The [try] block of the source cannot throw: the Buffer
    conversions and the string tests it holds are total on strings. *)
Definition hexToString (hex : jsstring) : jsstring :=
  let cleanHex := or_else (strip_leading_zeros hex) (js "0") in
  if (len cleanHex =? 64) && test_all is_hex_digit cleanHex then cleanHex
  else
    let decoded := Buffer.toString_utf8 (Buffer.from_hex cleanHex) in
    if startsWith decoded (js "encrypted:") then decoded
    else if test_all (fun c => is_lower c || is_space c) decoded
            && (12 <=? len (split 32 decoded)) then decoded
    else if (0 <? len decoded) && test_some is_printable decoded then decoded
    else cleanHex.

(* ================================================================== *)
(** ** Exceptions, the world, and the third-party packages *)

(** The outcome of a call: a value, or a thrown [Error] with its message. *)
Inductive result (A : Type) : Type :=
| Ok (value : A)
| Err (message : jsstring).
Arguments Ok {A} value.
Arguments Err {A} message.

(** The interface of the two packages.  [World] holds what they may read
    or change behind the engine's back: the entropy source and their own
    module-level configuration.
    - [secrets_share hex n t] is [secrets.share(hex, n, t)];
    - [secrets_combine shares] is [secrets.combine(shares)];
    - [AES_encrypt text password] is
      [CryptoJS.AES.encrypt(text, password).toString()];
    - [AES_decrypt_utf8 ciphertext password] is
      [CryptoJS.AES.decrypt(ciphertext, password).toString(CryptoJS.enc.Utf8)];
      it too runs in the world: crypto-js derives the key from the salt
      the ciphertext carries, and draws a fresh one when it carries
      none. *)
Class Libraries := {
  World : Type;
  secrets_share : jsstring -> Z -> Z -> World -> result (list jsstring) * World;
  secrets_combine : list jsstring -> World -> result jsstring * World;
  AES_encrypt : jsstring -> jsstring -> World -> result jsstring * World;
  AES_decrypt_utf8 : jsstring -> jsstring -> World -> result jsstring * World
}.

(** Computations that may throw and may touch the world. *)
Definition M {L : Libraries} (A : Type) : Type := World -> result A * World.

Definition ret {L : Libraries} {A} (a : A) : M A := fun w => (Ok a, w).

Definition throw {L : Libraries} {A} (message : jsstring) : M A :=
  fun w => (Err message, w).

Definition bind {L : Libraries} {A B} (m : M A) (k : A -> M B) : M B :=
  fun w => match m w with
           | (Ok a, w') => k a w'
           | (Err message, w') => (Err message, w')
           end.

(** [try { m } catch (error) { handler(error.message) }] *)
Definition try_catch {L : Libraries} {A} (m : M A) (handler : jsstring -> M A) : M A :=
  fun w => match m w with
           | (Ok a, w') => (Ok a, w')
           | (Err message, w') => handler message w'
           end.

(** A call that cannot touch the world. *)
Definition lift {L : Libraries} {A} (r : result A) : M A := fun w => (r, w).

Notation "x <- m ;; k" := (bind m (fun x => k))
  (at level 61, m at next level, right associativity).

(** [array.map(f)] for an [f] that may throw or touch the world: left to
    right, the first exception ends the loop. *)
Fixpoint mapM {L : Libraries} {A B} (f : A -> M B) (l : list A) : M (list B) :=
  match l with
  | [] => ret []
  | a :: l' => b <- f a ;; bs <- mapM f l' ;; ret (b :: bs)
  end.


(** An optional [password?: string] used as a condition: [undefined] and
    the empty string are falsy. *)
Definition given (password : option jsstring) : option jsstring :=
  match password with
  | Some (c :: p) => Some (c :: p)
  | _ => None
  end.

(* ================================================================== *)
(** ** [EncryptionUtils] ([src/utils/encryption.ts]) *)

Module EncryptionUtils.
Section WithLibraries.
Context {L : Libraries}.

Definition marker : jsstring := js "encrypted:".

Definition encrypt (text password : jsstring) : M jsstring :=
  encrypted <- AES_encrypt text password ;;
  ret (marker ++ encrypted).

Definition decrypt (encryptedText password : jsstring) : M jsstring :=
  let cleanText :=
    if startsWith encryptedText marker then substring 10 encryptedText
    else encryptedText in
  result <- AES_decrypt_utf8 cleanText password ;;
  match result with
  | [] => throw (js "Failed to decrypt - invalid password or corrupted data")
  | _ :: _ => ret result
  end.

Definition isEncrypted (text : jsstring) : bool := startsWith text marker.

Definition encryptShares (shares : list jsstring) (password : jsstring)
  : M (list jsstring) :=
  mapM (fun share => encrypt share password) shares.

Definition decryptShares (encryptedShares : list jsstring) (password : jsstring)
  : M (list jsstring) :=
  mapM (fun share => decrypt share password) encryptedShares.

End WithLibraries.
End EncryptionUtils.

(* ================================================================== *)
(** ** [ShamirSecretSharing] ([src/utils/shamir.ts]) *)

Module ShamirSecretSharing.
Section WithLibraries.
Context {L : Libraries}.

(** [createShares(secret, totalShares, threshold, password?)].  The counts
    are integers, as the commands pass them ([parseInt]).  Whatever is
    thrown inside the [try] is an [Error] of the engine or of a package, so
    the [catch] clause always has its message. *)
Definition createShares (secret : jsstring) (totalShares threshold : Z)
    (password : option jsstring) : M (list jsstring) :=
  if threshold >? totalShares then
    throw (js "Threshold cannot be greater than total shares")
  else if threshold <? 2 then throw (js "Threshold must be at least 2")
  else if totalShares <? 2 then throw (js "Total shares must be at least 2")
  else
    try_catch
      (secretToShare <-
         match given password with
         | Some pw => EncryptionUtils.encrypt secret pw
         | None => ret secret
         end ;;
       let hexSecret := stringToHex secretToShare in
       shares <- secrets_share hexSecret totalShares threshold ;;
       match given password with
       | Some pw => EncryptionUtils.encryptShares shares pw
       | None => ret shares
       end)
      (fun message => throw (js "Failed to create shares: " ++ message)).

(** [restoreSecret(shares, password?)].  [shares[0]] is read only behind
    the length guard, where it exists. *)
Definition restoreSecret (shares : list jsstring) (password : option jsstring)
  : M jsstring :=
  if len shares <? 2 then throw (js "At least 2 shares are required")
  else
    try_catch
      (sharesToUse <-
         match given password with
         | Some pw =>
             if EncryptionUtils.isEncrypted (nth 0 shares []) then
               EncryptionUtils.decryptShares shares pw
             else ret shares
         | None => ret shares
         end ;;
       restoredHexSecret <- secrets_combine sharesToUse ;;
       let restoredSecret := hexToString restoredHexSecret in
       match given password with
       | Some pw =>
           if EncryptionUtils.isEncrypted restoredSecret then
             EncryptionUtils.decrypt restoredSecret pw
           else ret restoredSecret
       | None => ret restoredSecret
       end)
      (fun message => throw (js "Failed to restore secret: " ++ message)).

End WithLibraries.
End ShamirSecretSharing.
Export ShamirSecretSharing.

(* ================================================================== *)
(** ** Vocabulary of the statements *)

(** Every code unit is a 16-bit value: the invariant of a JavaScript
    string. *)
Definition well_formed (s : jsstring) : Prop := Forall (fun c => 0 <= c < 65536) s.

Definition well_formedb (s : jsstring) : bool := forallb (between 0 65535) s.

(** A byte of a buffer. *)
Definition byte (b : Z) : Prop := 0 <= b < 256.

(** Text of 7-bit units. *)
Definition ascii_text (s : jsstring) : Prop := Forall (fun c => 0 <= c < 128) s.

(** The shares at the given positions of a share list, in the order the
    positions are listed. *)
Definition pick (idx : list nat) (shares : list jsstring) : list jsstring :=
  map (fun i => nth i shares []) idx.

(** Positions that choose distinct shares of a list. *)
Definition choice (idx : list nat) (shares : list jsstring) : Prop :=
  NoDup idx /\ Forall (fun i => (i < List.length shares)%nat) idx.

(** A hexadecimal digit as [Number.prototype.toString(16)] prints it. *)
Definition lower_hex (c : Z) : Z := if between 65 70 c then c + 32 else c.

(** A key of 64 lower-case hexadecimal digits that does not begin with the
    digit 0. *)
Definition plain_key (s : jsstring) : bool :=
  (len s =? 64) && forallb (fun c => between 48 57 c || between 97 102 c) s
  && negb (startsWith s (js "0")).

(** A key of 64 hexadecimal digits, either case. *)
Definition hex_key (s : jsstring) : bool :=
  (len s =? 64) && forallb is_hex_digit s.

(** A passphrase: words of lower-case letters a-z separated by single
    spaces, at least 12 of them. *)
Definition passphrase (s : jsstring) : bool :=
  forallb (test_all is_lower) (split 32 s) && (12 <=? len (split 32 s)).

(** The base64 alphabet, padding included. *)
Definition is_base64 (c : Z) : bool :=
  between 65 90 c || between 97 122 c || between 48 57 c
  || (c =? 43) || (c =? 47) || (c =? 61).

(** Decoder step 1 as the specification words it: whole leading zero
    bytes, that is pairs of the digit 0, are removed. *)
Fixpoint spec_strip_leading_zero_bytes (hex : jsstring) : jsstring :=
  match hex with
  | 48 :: 48 :: hex' => spec_strip_leading_zero_bytes hex'
  | _ => hex
  end.

(** The part of [restoreSecret] from the [secrets.combine] call to the
    [return], for the list that reaches the call. *)
Definition combine_and_finish {L : Libraries} (sharesToUse : list jsstring)
    (password : option jsstring) : M jsstring :=
  restoredHexSecret <- secrets_combine sharesToUse ;;
  let restoredSecret := hexToString restoredHexSecret in
  match given password with
  | Some pw =>
      if EncryptionUtils.isEncrypted restoredSecret then
        EncryptionUtils.decrypt restoredSecret pw
      else ret restoredSecret
  | None => ret restoredSecret
  end.

(** The [catch] clause of [restoreSecret]. *)
Definition restore_failure {L : Libraries} (message : jsstring) : M jsstring :=
  throw (js "Failed to restore secret: " ++ message).

(** What [restoreSecret] makes of the outcome of [secrets.combine], from
    the world that call left. *)
Definition finish {L : Libraries} (password : option jsstring)
    (combined : result jsstring * World) : result jsstring * World :=
  match combined with
  | (Err message, w) => (Err (js "Failed to restore secret: " ++ message), w)
  | (Ok hex, w) =>
      match given password with
      | Some pw =>
          if EncryptionUtils.isEncrypted (hexToString hex) then
            match EncryptionUtils.decrypt (hexToString hex) pw w with
            | (Ok secret, w') => (Ok secret, w')
            | (Err message, w') =>
                (Err (js "Failed to restore secret: " ++ message), w')
            end
          else (Ok (hexToString hex), w)
      | None => (Ok (hexToString hex), w)
      end
  end.

(** The cipher turns a ciphertext down under a password, in a world:
    decryption throws or yields the empty text. *)
Definition rejects {L : Libraries} (ciphertext password : jsstring) (w : World)
  : Prop :=
  match fst (AES_decrypt_utf8 ciphertext password w) with
  | Ok (_ :: _) => False
  | _ => True
  end.

(* ------------------------------------------------------------------ *)
(** *** What the engine relies on from the packages *)

Section Contracts.
Context (L : Libraries).

(** secrets.js checks the counts before anything else: more shares than
    the 8-bit field has non-zero points (2^8 - 1) is an error, and nothing
    was computed. *)
Definition share_checks_capacity : Prop :=
  forall hex n t w, 255 < n ->
    exists message, secrets_share hex n t w = (Err message, w).

(** secrets.js accepts every hexadecimal string with valid counts. *)
Definition share_accepts : Prop :=
  forall hex n t w,
    forallb is_hex_digit hex = true -> 2 <= t <= n -> n <= 255 ->
    exists shares w', secrets_share hex n t w = (Ok shares, w').

(** What it returns is [n] non-empty tokens. *)
Definition share_returns_n : Prop :=
  forall hex n t w shares w',
    secrets_share hex n t w = (Ok shares, w') ->
    len shares = n /\ Forall (fun share => share <> []) shares.

(** Any [t] or more distinct shares of a split combine to the secret that
    was split, its digits printed in lower case. *)
Definition combine_recovers : Prop :=
  forall hex n t w shares w',
    secrets_share hex n t w = (Ok shares, w') ->
    forall idx w2,
      choice idx shares -> t <= len idx ->
      fst (secrets_combine (pick idx shares) w2) = Ok (map lower_hex hex).

(** Decrypting what was encrypted, under the same password, gives the
    text back, in whatever world it is done. *)
Definition AES_round_trip : Prop :=
  forall text password w ciphertext w',
    AES_encrypt text password w = (Ok ciphertext, w') ->
    forall w2, fst (AES_decrypt_utf8 ciphertext password w2) = Ok text.

(** The ciphertext is printed in base64 (the OpenSSL format of crypto-js). *)
Definition AES_prints_base64 : Prop :=
  forall text password w ciphertext w',
    AES_encrypt text password w = (Ok ciphertext, w') ->
    forallb is_base64 ciphertext = true /\ len ciphertext mod 4 = 0.


End Contracts.

(* ================================================================== *)
(** ** A reference instance of the packages

    A small executable stand-in with the same interface, used to run the
    engine on concrete inputs and to show that the contracts above can be
    met.  Its sharing is Shamir's scheme with every random coefficient
    drawn as zero: each polynomial is constant, so a share's payload is the
    secret itself.  Its cipher frames a header, a salt, the password and
    the text in one token and compares passwords on decryption; a token
    without the header carries no salt, and is decrypted under one drawn
    from the world, to something empty or malformed. *)

Module Reference.

Definition share_ids (n : Z) : list Z := map Z.of_nat (seq 1 (Z.to_nat n)).

(** Field width tag ["8"], two-digit share id, payload. *)
Definition token (hex : jsstring) (id : Z) : jsstring :=
  js "8" ++ Buffer.toString_hex [id] ++ map lower_hex hex.

Definition share (hex : jsstring) (n t : Z) (w : Z) : result (list jsstring) * Z :=
  if (n <? 2) || (255 <? n) then
    (Err (js "Number of shares must be an integer between 2 and 2^bits-1 (255), inclusive."), w)
  else if (t <? 2) || (255 <? t) then
    (Err (js "Threshold number of shares must be an integer between 2 and 2^bits-1 (255), inclusive."), w)
  else if t >? n then
    (Err (js "Threshold number of shares must be less than or equal to the total shares."), w)
  else if negb (forallb is_hex_digit hex) then (Err (js "Invalid hex character."), w)
  else (Ok (map (token hex) (share_ids n)), w + 1).

Definition valid_token (s : jsstring) : bool :=
  match s with
  | 56 :: s' => (2 <=? len s') && forallb is_hex_digit s'
  | _ => false
  end.

Definition combine (shares : list jsstring) (w : Z) : result jsstring * Z :=
  match shares with
  | [] => (Err (js "No shares."), w)
  | s :: _ =>
      if forallb valid_token shares then (Ok (skipn 3 s), w)
      else (Err (js "Invalid share : Share id must be an integer between 1 and 255, inclusive."), w)
  end.

(** Sixteen-bit units as two bytes each, and back. *)
Fixpoint bytes_of_units (us : list Z) : list Z :=
  match us with
  | [] => []
  | u :: us' => u / 256 :: u mod 256 :: bytes_of_units us'
  end.

Fixpoint units_of_bytes (bs : list Z) : list Z :=
  match bs with
  | hi :: lo :: bs' => (256 * hi + lo) :: units_of_bytes bs'
  | _ => []
  end.

(** The header of a salted token (the letters "Sa"). *)
Definition salted : Z := 21345.

Definition aes_encrypt (text password : jsstring) (w : Z) : result jsstring * Z :=
  if well_formedb text && well_formedb password && (len password <? 65536) then
    (Ok (Buffer.toString_hex
           (bytes_of_units
              (salted :: w mod 65536 :: len password :: password ++ text))),
     w + 1)
  else (Err (js "URI malformed"), w).

(** The text of a salted token under a password. *)
Definition open_salted (units password : jsstring) : result jsstring :=
  match units with
  | _ :: n :: rest =>
      if (n <=? len rest) && JS.eqb (firstn (Z.to_nat n) rest) password then
        Ok (skipn (Z.to_nat n) rest)
      else Err (js "Malformed UTF-8 data")
  | _ => Ok []
  end.

(** Decryption.  A token with the header is opened under the salt it
    carries, and the world is left as it was.  For a token without the
    header a salt is drawn from the world: what comes out is empty or
    malformed as the draw has it. *)
Definition aes_decrypt_utf8 (ciphertext password : jsstring) (w : Z)
  : result jsstring * Z :=
  match units_of_bytes (Buffer.from_hex ciphertext) with
  | [] => (Ok [], w)
  | header :: units =>
      if header =? salted then (open_salted units password, w)
      else if Z.even w then (Ok [], w + 1)
      else (Err (js "Malformed UTF-8 data"), w + 1)
  end.

Definition packages : Libraries := {|
  World := Z;
  secrets_share := share;
  secrets_combine := combine;
  AES_encrypt := aes_encrypt;
  AES_decrypt_utf8 := aes_decrypt_utf8
|}.

End Reference.

(* ================================================================== *)
(** ** Sample inputs *)

Module Samples.

(** The private key of the unit tests. *)
Definition test_key : jsstring :=
  js "1234567890abcdef1234567890abcdef1234567890abcdef1234567890abcdef".

(** A private key whose first digit is 0. *)
Definition zero_key : jsstring :=
  js "0234567890abcdef1234567890abcdef1234567890abcdef1234567890abcdef".

(** A private key written in upper case. *)
Definition upper_key : jsstring :=
  js "ABCDEF7890ABCDEF1234567890ABCDEF1234567890ABCDEF1234567890ABCDEF".

(** The mnemonic of the unit tests. *)
Definition test_mnemonic : jsstring :=
  js "abandon abandon abandon abandon abandon abandon abandon abandon abandon abandon abandon about".

(** Twelve lower-case words in 32 characters. *)
Definition short_phrase : jsstring := js "i am a go to be or so we up an o".

Definition password : jsstring := js "testpassword".

(** The shares of a split by the reference packages, from a fresh world. *)
Definition shares_of (secret : jsstring) (n t : Z) (pw : option jsstring)
  : list jsstring :=
  match createShares (L := Reference.packages) secret n t pw 0 with
  | (Ok shares, _) => shares
  | (Err _, _) => []
  end.


(** A ciphertext of the reference cipher, without the marker. *)
Definition bare_ciphertext : jsstring :=
  match Reference.aes_encrypt (js "Hello, World!") password 0 with
  | (Ok ciphertext, _) => ciphertext
  | (Err _, _) => []
  end.

End Samples.

(* ================================================================== *)
(** ** Text secrets *)

(** A string without unpaired surrogates ([isWellFormed()]). *)
Fixpoint well_paired (s : jsstring) : bool :=
  match s with
  | [] => true
  | c :: s' =>
      if Buffer.is_high_surrogate c then
        match s' with
        | d :: s'' => Buffer.is_low_surrogate d && well_paired s''
        | [] => false
        end
      else negb (Buffer.is_low_surrogate c) && between 0 65535 c && well_paired s'
  end.

(** A code point that is not a surrogate. *)
Definition scalar (cp : Z) : Prop :=
  0 <= cp < 55296 \/ 57344 <= cp < 1114112.

(** A text secret: no unpaired surrogate, not a string of hexadecimal
    digits, and a first unit of 16 or more. *)
Definition plain_text (s : jsstring) : bool :=
  well_paired s && negb (test_all is_hex_digit s)
  && match s with c :: _ => 16 <=? c | [] => false end.

(* ================================================================== *)
(** ** The commands: share files, prompts, and what is restored
       ([commands/create.ts], [generate.ts], [restore.ts], [validate.ts]) *)

Module ShareFiles.

(** The character class [\d]. *)
Definition is_digit (c : Z) : bool := between 48 57 c.

(** [s.trim()]: white space and line terminators are removed at both
    ends. *)
Fixpoint trimStart (s : jsstring) : jsstring :=
  match s with
  | c :: s' => if is_space c then trimStart s' else s
  | [] => []
  end.

Definition trimEnd (s : jsstring) : jsstring := rev (trimStart (rev s)).

Definition trim (s : jsstring) : jsstring := trimEnd (trimStart s).

(** [array.join(sep)] *)
Fixpoint join (sep : jsstring) (l : list jsstring) : jsstring :=
  match l with
  | [] => []
  | [x] => x
  | x :: l' => x ++ sep ++ join sep l'
  end.

(** The digits of a decimal numeral. *)
Fixpoint units_of_uint (d : Decimal.uint) : jsstring :=
  match d with
  | Decimal.Nil => []
  | Decimal.D0 d' => 48 :: units_of_uint d'
  | Decimal.D1 d' => 49 :: units_of_uint d'
  | Decimal.D2 d' => 50 :: units_of_uint d'
  | Decimal.D3 d' => 51 :: units_of_uint d'
  | Decimal.D4 d' => 52 :: units_of_uint d'
  | Decimal.D5 d' => 53 :: units_of_uint d'
  | Decimal.D6 d' => 54 :: units_of_uint d'
  | Decimal.D7 d' => 55 :: units_of_uint d'
  | Decimal.D8 d' => 56 :: units_of_uint d'
  | Decimal.D9 d' => 57 :: units_of_uint d'
  end.

(** An integer in a template literal or under [toString()] (for the
    integers printed without an exponent). *)
Definition decimal (n : Z) : jsstring :=
  match n with
  | Z0 => js "0"
  | Zpos p => units_of_uint (Pos.to_uint p)
  | Zneg p => js "-" ++ units_of_uint (Pos.to_uint p)
  end.

(** [shares.map((share, index) => `Share ${index + 1}: ${share}`)], from
    a given index on. *)
Fixpoint label_from (index : Z) (shares : list jsstring) : list jsstring :=
  match shares with
  | [] => []
  | share :: shares' =>
      (js "Share " ++ decimal (index + 1) ++ js ": " ++ share)
        :: label_from (index + 1) shares'
  end.

(** The content [createShares] of [commands/create.ts] writes to the
    output file. *)
Definition sharesFileContent (shares : list jsstring) : jsstring :=
  join [10] (label_from 0 shares).

(** The content [generateMnemonicAndShares] writes to the output file. *)
Definition generatedFileContent (date address mnemonic : jsstring)
    (totalShares threshold : Z) (shares : list jsstring) : jsstring :=
  join [10]
    ([js "# Generated Mnemonic and Shares";
      js "# Generated on: " ++ date;
      js "# Account Address: " ++ address;
      js "# Mnemonic: " ++ mnemonic;
      [];
      js "# Shares (" ++ decimal totalShares ++ js " total, "
        ++ decimal threshold ++ js " threshold):"]
     ++ label_from 0 shares).

(** The longest run of digits at the head of a string is dropped. *)
Fixpoint skip_digits (s : jsstring) : jsstring :=
  match s with
  | c :: s' => if is_digit c then skip_digits s' else s
  | [] => []
  end.

(** [line.replace(/^Share \d+: /, "")].  The digits are followed by a
    colon, which is no digit, so the greedy run is the only one that can
    match. *)
Definition removeLabel (line : jsstring) : jsstring :=
  if startsWith line (js "Share ") then
    match substring 6 line with
    | d :: rest =>
        if is_digit d then
          if startsWith (skip_digits rest) (js ": ") then
            substring 2 (skip_digits rest)
          else line
        else line
    | [] => line
    end
  else line.

(** The shares read from a file by [restoreKey] and [validateShares]. *)
Definition sharesFromFile (content : jsstring) : list jsstring :=
  map (fun line => trim (removeLabel line))
    (filter (fun line => (0 <? len (trim line)) && startsWith line (js "Share "))
       (split 10 content)).

(** The shares read from the answer to the prompt. *)
Definition sharesFromAnswer (answer : jsstring) : list jsstring :=
  filter (fun s => 0 <? len s) (map trim (split 44 answer)).

End ShareFiles.

Module Commands.
Import ShareFiles.

(** The options of [restore] and of [validate] ([RestoreOptions],
    [ValidateOptions]: the same three fields). *)
Record RestoreOptions := {
  shares : option (list jsstring);
  file : option jsstring;
  password : option jsstring
}.

(** The first part of [restoreKey] and of [validateShares], the same in
    both: where the shares come from.  [disk] is [readFileSync] on the
    named file of the working directory, [answer] what the user types at
    the prompt. *)
Definition loadShares (options : RestoreOptions)
    (disk : jsstring -> result jsstring) (answer : jsstring)
  : result (list jsstring) :=
  match given (file options) with
  | Some name =>
      match disk name with
      | Ok content => Ok (sharesFromFile content)
      | Err message => Err (js "Failed to read file: " ++ message)
      end
  | None =>
      match shares options with
      | Some (share :: others) => Ok (share :: others)
      | _ => Ok (sharesFromAnswer answer)
      end
  end.

(** The two tests of the commands on a restored secret. *)
Definition isMnemonic (secret : jsstring) : bool :=
  test_all (fun c => is_lower c || is_space c) secret
  && (12 <=? len (split 32 secret)).

Definition isPrivateKey (secret : jsstring) : bool :=
  test_all is_hex_digit secret && (len secret =? 64).

(** [restoreKey(options)] ([commands/restore.ts]).  The value is the
    secret the command prints; its other console lines are left out. *)
Definition restoreKey {L : Libraries} (options : RestoreOptions)
    (disk : jsstring -> result jsstring) (answer : jsstring) : M jsstring :=
  loaded <- lift (loadShares options disk answer) ;;
  if len loaded <? 2 then
    throw (js "At least 2 shares are required to restore the private key")
  else
    try_catch
      (restoredSecret <- restoreSecret loaded (password options) ;;
       if isMnemonic restoredSecret then ret restoredSecret
       else if isPrivateKey restoredSecret then ret restoredSecret
       else throw (js "Restored secret is neither a valid mnemonic nor a valid private key"))
      (fun message => throw (js "Failed to restore secret: " ++ message)).

(** What [validateShares] reports of the secret. *)
Inductive SecretType := Mnemonic | PrivateKey.

(** [validateShares(options)] ([commands/validate.ts]).  The value is the
    secret type the command reports; its [catch] clause prints and throws
    the error it caught. *)
Definition validateShares {L : Libraries} (options : RestoreOptions)
    (disk : jsstring -> result jsstring) (answer : jsstring) : M SecretType :=
  loaded <- lift (loadShares options disk answer) ;;
  if len loaded <? 2 then
    throw (js "At least 2 shares are required for validation")
  else
    try_catch
      (privateKey <- restoreSecret loaded (password options) ;;
       if negb (isMnemonic privateKey) && negb (isPrivateKey privateKey) then
         throw (js "Shares contain invalid data - neither mnemonic nor private key format")
       else if isMnemonic privateKey then ret Mnemonic
       else ret PrivateKey)
      (fun message => throw message).

(** The check of the key in [createShares] of [commands/create.ts], from
    the option or the prompt to the key handed to the engine. *)
Definition checkPrivateKey (key : option jsstring) (answer : jsstring)
  : result jsstring :=
  let privateKey := match given key with Some k => k | None => answer end in
  let privateKey :=
    match privateKey with
    | _ :: _ => if startsWith privateKey (js "0x") then substring 2 privateKey
                else privateKey
    | [] => privateKey
    end in
  match privateKey with
  | [] => Err (js "Private key must be 64 characters long (32 bytes in hex)")
  | _ :: _ =>
      if negb (len privateKey =? 64) then
        Err (js "Private key must be 64 characters long (32 bytes in hex)")
      else if negb (test_all is_hex_digit privateKey) then
        Err (js "Private key must contain only hexadecimal characters")
      else Ok privateKey
  end.

End Commands.

(** The shares of secrets.js are single words: no white space, no line
    break. *)
Definition share_prints_words (L : Libraries) : Prop :=
  forall hex n t w shares w',
    secrets_share hex n t w = (Ok shares, w') ->
    Forall (fun share => forallb (fun c => negb (is_space c)) share = true) shares.

(* ================================================================== *)
(** ** The file names of the PDF documents ([PDFGenerator]) *)

Module PDF.
Import ShareFiles.

(** [s.replace(/[^a-z0-9\s-]/g, "")] *)
Definition removeSpecial (s : jsstring) : jsstring :=
  filter (fun c => is_lower c || is_digit c || is_space c || (c =? 45)) s.

(** [s.replace(/[class]+/g, "-")]: every maximal run of units of the class
    becomes one hyphen.  [inside] tells that the unit before was of the
    class. *)
Fixpoint hyphenate (cls : Z -> bool) (inside : bool) (s : jsstring) : jsstring :=
  match s with
  | [] => []
  | c :: s' =>
      if cls c then
        if inside then hyphenate cls true s' else 45 :: hyphenate cls true s'
      else c :: hyphenate cls false s'
  end.

(** [s.replace(/^-|-$/g, "")]: a hyphen at the start is removed, then a
    hyphen at the end of what is left. *)
Definition stripHyphens (s : jsstring) : jsstring :=
  let s1 := match s with
            | c :: r => if c =? 45 then r else s
            | [] => s
            end in
  match rev s1 with
  | c :: r => if c =? 45 then rev r else s1
  | [] => s1
  end.

(** [baseName] of [generateFilename], from [options.title?.toLowerCase()]. *)
Definition baseName (lowered : option jsstring) : jsstring :=
  match lowered with
  | Some title =>
      or_else
        (stripHyphens
           (hyphenate (fun c => c =? 45) false
              (hyphenate is_space false (removeSpecial title))))
        (js "eth-share")
  | None => js "eth-share"
  end.

(** [s.padStart(target, fill)] for a one-unit [fill]. *)
Definition padStart (target : Z) (fill : Z) (s : jsstring) : jsstring :=
  repeat fill (Z.to_nat (target - len s)) ++ s.

(** [generateFilename(options)]; [timestamp] is the day of
    [new Date().toISOString()]. *)
Definition generateFilename (lowered : option jsstring)
    (shareNumber totalShares : Z) (timestamp : jsstring) : jsstring :=
  baseName lowered ++ js "-" ++ padStart 2 48 (decimal shareNumber)
    ++ js "-of-" ++ decimal totalShares ++ js "-" ++ timestamp ++ js ".pdf".

End PDF.

(** Vocabulary for the shape of a base name: no two hyphens in a row
    ([prev] tells that the unit before was one), the units of a base
    name, and a numeral with zeros in front. *)
Fixpoint single (prev : bool) (s : jsstring) : bool :=
  match s with
  | [] => true
  | c :: s' => if c =? 45 then negb prev && single true s' else single false s'
  end.

Definition plain_unit (c : Z) : bool :=
  is_lower c || ShareFiles.is_digit c || (c =? 45).

Fixpoint zeros (k : nat) (d : Decimal.uint) : Decimal.uint :=
  match k with
  | O => d
  | S k' => Decimal.D0 (zeros k' d)
  end.

(* ================================================================== *)
(** ** Facts about strings and buffers *)

(** Case analysis on every integer comparison in sight. *)
Ltac zcases :=
  unfold is_hex_digit, is_lower, is_printable, is_base64, lower_hex,
    Buffer.is_high_surrogate, Buffer.is_low_surrogate, between in *;
  repeat match goal with
         | |- context [?a <=? ?b] => destruct (Z.leb_spec a b)
         | |- context [?a <? ?b] => destruct (Z.ltb_spec a b)
         | |- context [?a >? ?b] => rewrite (Z.gtb_ltb a b)
         | |- context [?a =? ?b] => destruct (Z.eqb_spec a b)
         | H : context [?a <=? ?b] |- _ => destruct (Z.leb_spec a b)
         | H : context [?a <? ?b] |- _ => destruct (Z.ltb_spec a b)
         | H : context [?a =? ?b] |- _ => destruct (Z.eqb_spec a b)
         end;
  cbn [andb orb negb] in *; try congruence; try lia.

Lemma len_nil {A} : len (@nil A) = 0.
Proof. reflexivity. Qed.

Lemma len_cons {A} (a : A) l : len (a :: l) = 1 + len l.
Proof. unfold len. simpl List.length. lia. Qed.

Lemma len_app {A} (l1 l2 : list A) : len (l1 ++ l2) = len l1 + len l2.
Proof. unfold len. rewrite length_app. lia. Qed.

Lemma len_nonneg {A} (l : list A) : 0 <= len l.
Proof. unfold len. lia. Qed.

Lemma startsWith_app s prefix : startsWith (prefix ++ s) prefix = true.
Proof.
  induction prefix as [|p prefix IH]; simpl; [reflexivity|].
  now rewrite Z.eqb_refl, IH.
Qed.

Lemma startsWith_inv s prefix :
  startsWith s prefix = true -> s = prefix ++ skipn (List.length prefix) s.
Proof.
  revert s; induction prefix as [|p prefix IH]; intros s H; simpl in *.
  - reflexivity.
  - destruct s as [|c s]; [discriminate|].
    apply andb_true_iff in H as [Hc Hs]. apply Z.eqb_eq in Hc. subst c.
    simpl. f_equal. now apply IH.
Qed.

Lemma eqb_refl s : JS.eqb s s = true.
Proof. unfold JS.eqb. destruct (list_eq_dec Z.eq_dec s s); congruence. Qed.

Lemma eqb_eq a b : JS.eqb a b = true -> a = b.
Proof. unfold JS.eqb. destruct (list_eq_dec Z.eq_dec a b); congruence. Qed.

Lemma well_formedb_spec s : well_formedb s = true -> well_formed s.
Proof.
  unfold well_formedb, well_formed. rewrite forallb_forall, Forall_forall.
  intros H c Hc. specialize (H c Hc). zcases.
Qed.

Module BufferFacts.
Import Buffer.

Lemma hex_value_digit d : 0 <= d < 16 -> hex_value (hex_digit d) = Some d.
Proof.
  intros Hd. unfold hex_value, hex_digit.
  destruct (Z.ltb_spec d 10); zcases; f_equal; lia.
Qed.

Lemma hex_digit_is_hex d : 0 <= d < 16 -> is_hex_digit (hex_digit d) = true.
Proof. intros Hd. unfold hex_digit. destruct (Z.ltb_spec d 10); zcases. Qed.

Lemma hex_digit_lower d : 0 <= d < 16 -> lower_hex (hex_digit d) = hex_digit d.
Proof. intros Hd. unfold hex_digit. destruct (Z.ltb_spec d 10); zcases. Qed.

Lemma byte_nibbles b : byte b -> 0 <= b / 16 < 16 /\ 0 <= b mod 16 < 16.
Proof. unfold byte. intros Hb. split; [|apply Z.mod_pos_bound; lia].
  split; [apply Z.div_pos; lia | apply Z.div_lt_upper_bound; lia]. Qed.

(** Hex decoding undoes hex encoding. *)
Lemma from_hex_toString_hex bytes :
  Forall byte bytes -> from_hex (toString_hex bytes) = bytes.
Proof.
  induction 1 as [|b bytes Hb _ IH]; [reflexivity|].
  destruct (byte_nibbles b Hb) as [Hhi Hlo].
  cbn [toString_hex from_hex].
  rewrite (hex_value_digit _ Hhi), (hex_value_digit _ Hlo), IH.
  f_equal. rewrite (Z.div_mod b 16) at 3 by lia. reflexivity.
Qed.

Lemma toString_hex_is_hex bytes :
  Forall byte bytes -> forallb is_hex_digit (toString_hex bytes) = true.
Proof.
  induction 1 as [|b bytes Hb _ IH]; [reflexivity|].
  destruct (byte_nibbles b Hb) as [Hhi Hlo].
  cbn [toString_hex forallb].
  now rewrite (hex_digit_is_hex _ Hhi), (hex_digit_is_hex _ Hlo), IH.
Qed.

Lemma toString_hex_lower bytes :
  Forall byte bytes -> map lower_hex (toString_hex bytes) = toString_hex bytes.
Proof.
  induction 1 as [|b bytes Hb _ IH]; [reflexivity|].
  destruct (byte_nibbles b Hb) as [Hhi Hlo].
  cbn [toString_hex map].
  now rewrite (hex_digit_lower _ Hhi), (hex_digit_lower _ Hlo), IH.
Qed.

Lemma len_toString_hex bytes : len (toString_hex bytes) = 2 * len bytes.
Proof.
  induction bytes as [|b bytes IH]; [reflexivity|].
  cbn [toString_hex]. rewrite !len_cons, IH. lia.
Qed.

(** ASCII text is its own UTF-8. *)
Lemma from_utf8_ascii s : ascii_text s -> from_utf8 s = s.
Proof.
  induction 1 as [|c s Hc _ IH]; [reflexivity|].
  cbn [from_utf8]. rewrite IH. unfold utf8_of_code_point. zcases; reflexivity.
Qed.

Lemma code_points_ascii bytes : ascii_text bytes -> code_points None bytes = bytes.
Proof.
  induction 1 as [|b bytes Hb _ IH]; [reflexivity|].
  cbn [code_points]. unfold lead. destruct (Z.leb_spec b 127); [|lia].
  cbn. now rewrite IH.
Qed.

Lemma toString_utf8_ascii bytes : ascii_text bytes -> toString_utf8 bytes = bytes.
Proof.
  intros H. unfold toString_utf8. rewrite (code_points_ascii _ H).
  induction H as [|b bytes Hb _ IH]; [reflexivity|].
  cbn [flat_map]. rewrite IH. unfold utf16_of_code_point.
  destruct (Z.ltb_spec b 65536); [reflexivity | lia].
Qed.

Lemma ascii_bytes s : ascii_text s -> Forall byte s.
Proof. apply Forall_impl. unfold byte. intros; lia. Qed.

Lemma utf8_of_code_point_bytes cp :
  0 <= cp < 1114112 -> Forall byte (utf8_of_code_point cp).
Proof.
  intros Hcp. unfold utf8_of_code_point, byte.
  destruct (Z.ltb_spec cp 128); [|destruct (Z.ltb_spec cp 2048);
    [|destruct (Z.ltb_spec cp 65536)]];
  repeat constructor; Z.div_mod_to_equations; lia.
Qed.

(** The UTF-8 of a well-formed string is a sequence of bytes. *)
Lemma from_utf8_bytes s : well_formed s -> Forall byte (from_utf8 s).
Proof.
  assert (replacement : Forall byte replacement_bytes)
    by (repeat constructor; unfold byte; lia).
  assert (strong : forall n s, (List.length s <= n)%nat -> well_formed s ->
                               Forall byte (from_utf8 s)).
  { induction n as [|n IH]; intros [|c s'] Hn Hwf; simpl in Hn;
      try (constructor; fail); try lia.
    inversion Hwf as [|? ? Hc Hs]; subst.
    cbn [from_utf8].
    destruct (is_high_surrogate c) eqn:Ehi.
    - destruct s' as [|d s'']; [exact replacement|].
      inversion Hs as [|? ? Hd Hs']; subst.
      destruct (is_low_surrogate d) eqn:Elo.
      + apply Forall_app; split.
        * apply utf8_of_code_point_bytes. zcases.
        * apply IH; [simpl in Hn; lia | assumption].
      + apply Forall_app; split; [exact replacement|].
        apply IH; [simpl in *; lia | assumption].
    - destruct (is_low_surrogate c).
      + apply Forall_app; split; [exact replacement|].
        apply IH; [lia | assumption].
      + apply Forall_app; split; [apply utf8_of_code_point_bytes; lia|].
        apply IH; [lia | assumption]. }
  intros H. now apply (strong (List.length s)).
Qed.

End BufferFacts.

(* ================================================================== *)
(** ** The encoder and the decoder *)

Module CodecFacts.
Import Buffer BufferFacts.

Lemma test_all_forallb cls s : test_all cls s = true -> forallb cls s = true.
Proof. destruct s; [discriminate | trivial]. Qed.

Lemma test_all_In cls s c : In c s -> cls c = false -> test_all cls s = false.
Proof.
  intros Hin Hc. destruct s as [|d s]; [reflexivity|]. unfold test_all.
  destruct (forallb cls (d :: s)) eqn:E; [|reflexivity].
  rewrite forallb_forall in E. rewrite (E c Hin) in Hc. discriminate.
Qed.

Lemma split_cons sep s : exists piece pieces, split sep s = piece :: pieces.
Proof.
  destruct s as [|c s]; simpl; [eauto|].
  destruct (c =? sep); [eauto|]. destruct (split sep s); eauto.
Qed.

(** Without a separator there is one piece. *)
Lemma split_one sep s : ~ In sep s -> split sep s = [s].
Proof.
  induction s as [|c s IH]; intros Hnot; [reflexivity|].
  cbn [split]. destruct (Z.eqb_spec c sep) as [->|_].
  - exfalso. apply Hnot. now left.
  - rewrite IH; [reflexivity|]. intros Hin. apply Hnot. now right.
Qed.

(** The units of a string are those of its pieces, and separators. *)
Lemma split_units cls s : forall piece pieces,
  split 32 s = piece :: pieces ->
  forallb cls piece = true -> forallb (test_all cls) pieces = true ->
  Forall (fun c => cls c = true \/ c = 32) s.
Proof.
  induction s as [|c s IH]; intros piece pieces Hsplit Hpiece Hpieces;
    [constructor|].
  cbn [split] in Hsplit. destruct (Z.eqb_spec c 32) as [->|Hc].
  - injection Hsplit as <- <-. constructor; [now right|].
    destruct (split_cons 32 s) as (p & ps & E). rewrite E in Hpieces.
    cbn [forallb] in Hpieces. apply andb_true_iff in Hpieces as [Hp Hps].
    apply (IH p ps E); [now apply test_all_forallb | assumption].
  - destruct (split_cons 32 s) as (p & ps & E). rewrite E in Hsplit.
    injection Hsplit as <- <-. cbn [forallb] in Hpiece.
    apply andb_true_iff in Hpiece as [Hcc Hp].
    constructor; [now left|]. now apply (IH p ps E).
Qed.

(** What the decoder and the encoder need to know of a passphrase. *)
Lemma passphrase_shape s :
  passphrase s = true ->
  ascii_text s /\ In 32 s /\
  exists c s', s = c :: s' /\ is_lower c = true.
Proof.
  unfold passphrase. intros H. apply andb_true_iff in H as [Hwords Hcount].
  destruct (split_cons 32 s) as (p & ps & E).
  pose proof Hwords as Hw. rewrite E in Hw. cbn [forallb] in Hw.
  apply andb_true_iff in Hw as [Hp Hps].
  split; [|split].
  - pose proof (split_units is_lower s p ps E (test_all_forallb _ _ Hp) Hps) as F.
    revert F. apply Forall_impl. intros c [Hc| ->]; zcases.
  - destruct (in_dec Z.eq_dec 32 s) as [Hin|Hnot]; [assumption|].
    rewrite (split_one 32 s Hnot) in Hcount. cbn in Hcount. discriminate.
  - destruct s as [|c s']; [cbn in E; injection E as <- <-; discriminate|].
    exists c, s'. split; [reflexivity|].
    cbn [split] in E. destruct (Z.eqb_spec c 32) as [->|Hc].
    + injection E as <- <-. discriminate.
    + destruct (split_cons 32 s') as (q & qs & E'). rewrite E' in E.
      injection E as <- <-. cbn [test_all forallb] in Hp.
      now apply andb_true_iff in Hp as [Hc' _].
Qed.

(** Text is encoded as the hex of its bytes. *)
Lemma stringToHex_text s :
  ascii_text s -> (exists c, In c s /\ is_hex_digit c = false) ->
  stringToHex s = toString_hex s.
Proof.
  intros Hascii (c & Hin & Hc). unfold stringToHex.
  rewrite (test_all_In _ _ _ Hin Hc). now rewrite from_utf8_ascii.
Qed.

(** Decoding the hex of a text gives the text back when its first unit is
    at least 16 and it is not 32 units long. *)
Lemma hexToString_text c s :
  ascii_text (c :: s) -> 16 <= c -> len (c :: s) <> 32 ->
  existsb is_printable (c :: s) = true ->
  hexToString (toString_hex (c :: s)) = c :: s.
Proof.
  intros Hascii Hc Hlen Hprint. unfold hexToString.
  assert (Hclean : or_else (strip_leading_zeros (toString_hex (c :: s))) (js "0")
                   = toString_hex (c :: s)).
  { cbn [toString_hex strip_leading_zeros].
    assert (hex_digit (c / 16) <> 48).
    { inversion Hascii; subst. unfold hex_digit.
      assert (1 <= c / 16) by (apply Z.div_le_lower_bound; lia).
      destruct (Z.ltb_spec (c / 16) 10); lia. }
    destruct (Z.eqb_spec (hex_digit (c / 16)) 48); [contradiction | reflexivity]. }
  rewrite Hclean, len_toString_hex.
  destruct (Z.eqb_spec (2 * len (c :: s)) 64) as [E|_]; [lia|].
  cbn [andb].
  rewrite (from_hex_toString_hex _ (ascii_bytes _ Hascii)).
  rewrite (toString_utf8_ascii _ Hascii).
  destruct (startsWith (c :: s) (js "encrypted:")); [reflexivity|].
  match goal with |- (if ?b then _ else _) = _ => destruct b end; [reflexivity|].
  unfold test_some. rewrite Hprint, len_cons.
  pose proof (len_nonneg s).
  destruct (Z.ltb_spec 0 (1 + len s)); [reflexivity | lia].
Qed.

(** A lower-case key that does not begin with 0 is its own canonical hex,
    is printed unchanged by the sharing package, and is decoded to
    itself. *)
Lemma plain_key_codec s :
  plain_key s = true ->
  stringToHex s = s /\ map lower_hex s = s /\ hexToString s = s
  /\ forallb is_hex_digit s = true.
Proof.
  unfold plain_key. intros H.
  apply andb_true_iff in H as [H Hzero]. apply andb_true_iff in H as [Hlen Hdigits].
  apply Z.eqb_eq in Hlen.
  assert (Hhex : forallb is_hex_digit s = true).
  { rewrite forallb_forall in *. intros c Hc. specialize (Hdigits c Hc). zcases. }
  destruct s as [|c s]; [discriminate|].
  assert (Htest : test_all is_hex_digit (c :: s) = true) by exact Hhex.
  split; [|split; [|split]]; [| | |exact Hhex].
  - unfold stringToHex. rewrite Htest, Hlen. reflexivity.
  - clear - Hdigits. induction (c :: s) as [|d l IH]; [reflexivity|].
    cbn [forallb] in Hdigits. apply andb_true_iff in Hdigits as [Hd Hl].
    cbn [map]. rewrite (IH Hl). f_equal. zcases.
  - unfold hexToString. cbn [strip_leading_zeros].
    cbn [startsWith js list_ascii_of_string map] in Hzero.
    destruct (c =? 48) eqn:E.
    + exfalso. revert Hzero. cbn. rewrite E. discriminate.
    + cbn [or_else]. rewrite Hlen, Htest. reflexivity.
Qed.

(** Step 2 of the decoder, when it is reached: 64 hexadecimal digits left
    after the leading zeros are returned as they are. *)
Lemma hexToString_raw_key hex :
  let cleanHex := or_else (strip_leading_zeros hex) (js "0") in
  len cleanHex = 64 -> forallb is_hex_digit cleanHex = true ->
  hexToString hex = cleanHex.
Proof.
  intros cleanHex Hlen Hhex. unfold hexToString. fold cleanHex.
  rewrite Hlen. destruct cleanHex; [discriminate|].
  unfold test_all. now rewrite Hhex.
Qed.

(** The canonical hex is always a string of hexadecimal digits. *)
Lemma stringToHex_is_hex s :
  well_formed s -> forallb is_hex_digit (stringToHex s) = true.
Proof.
  intros Hwf. unfold stringToHex.
  destruct (test_all is_hex_digit s) eqn:E.
  - apply test_all_forallb in E.
    destruct (negb (len s mod 2 =? 0)); [|exact E].
    cbn [js list_ascii_of_string map app forallb]. now rewrite E.
  - apply toString_hex_is_hex. now apply from_utf8_bytes.
Qed.

(** A passphrase that is not 32 units long goes through the encoder and
    the decoder unchanged. *)
Lemma passphrase_codec s :
  passphrase s = true -> len s <> 32 ->
  stringToHex s = toString_hex s
  /\ map lower_hex (toString_hex s) = toString_hex s
  /\ hexToString (toString_hex s) = s
  /\ forallb is_hex_digit (toString_hex s) = true.
Proof.
  intros Hp Hlen.
  destruct (passphrase_shape s Hp) as (Hascii & Hspace & c & s' & -> & Hc).
  pose proof (ascii_bytes _ Hascii) as Hbytes.
  split; [|split; [|split]].
  - apply stringToHex_text; [assumption|]. exists 32. split; [assumption | reflexivity].
  - now apply toString_hex_lower.
  - apply hexToString_text; try assumption; [zcases|].
    cbn [existsb]. replace (is_printable c) with true by (symmetry; zcases).
    reflexivity.
  - now apply toString_hex_is_hex.
Qed.

End CodecFacts.

(* ================================================================== *)
(** ** The engine, step by step *)

Section EngineFacts.
Context {L : Libraries}.
Import EncryptionUtils.

Lemma given_nonempty pw : pw <> [] -> given (Some pw) = Some pw.
Proof. destruct pw; [congruence | reflexivity]. Qed.


Lemma len_pick idx shares : len (pick idx shares) = len idx.
Proof. unfold pick, len. now rewrite length_map. Qed.

(** Below two shares nothing is attempted. *)
Lemma restoreSecret_short shares password w :
  len shares < 2 ->
  restoreSecret shares password w = (Err (js "At least 2 shares are required"), w).
Proof.
  intros H. unfold restoreSecret.
  destruct (Z.ltb_spec (len shares) 2); [reflexivity | lia].
Qed.

(** Without a usable password, or with a first share that does not carry
    the marker, the list reaches [secrets.combine] as it is. *)
Lemma restoreSecret_closed_gate shares password w :
  2 <= len shares ->
  given password = None \/ isEncrypted (nth 0 shares []) = false ->
  restoreSecret shares password w
  = try_catch (combine_and_finish shares password) restore_failure w.
Proof.
  intros Hlen Hgate. unfold restoreSecret.
  destruct (Z.ltb_spec (len shares) 2); [lia|].
  unfold combine_and_finish, restore_failure.
  destruct (given password) as [pw|] eqn:E.
  - destruct Hgate as [|Hfirst]; [discriminate|]. rewrite Hfirst. reflexivity.
  - reflexivity.
Qed.

(** With a usable password and a marked first share, every share is
    decrypted first. *)
Lemma restoreSecret_open_gate shares password pw w :
  2 <= len shares ->
  given password = Some pw -> isEncrypted (nth 0 shares []) = true ->
  restoreSecret shares password w
  = try_catch (sharesToUse <- decryptShares shares pw ;;
               combine_and_finish sharesToUse password) restore_failure w.
Proof.
  intros Hlen Hpw Hfirst. unfold restoreSecret.
  destruct (Z.ltb_spec (len shares) 2); [lia|].
  unfold combine_and_finish, restore_failure. rewrite Hpw, Hfirst. reflexivity.
Qed.

(** A failure of [restoreSecret] past the length guard carries the prefix
    of its [catch] clause. *)
Lemma try_catch_restore_failure (m : M jsstring) w :
  (exists secret, fst (try_catch m restore_failure w) = Ok secret)
  \/ (exists message,
        fst (try_catch m restore_failure w)
        = Err (js "Failed to restore secret: " ++ message)).
Proof.
  unfold try_catch, restore_failure, throw.
  destruct (m w) as [[secret|message] w']; cbn [fst]; eauto.
Qed.

(** The counts pass the guards of [createShares] exactly when
    [2 <= t <= n]. *)
Lemma createShares_guards secret n t password w :
  2 <= t <= n ->
  createShares secret n t password w
  = try_catch
      (secretToShare <-
         match given password with
         | Some pw => encrypt secret pw
         | None => ret secret
         end ;;
       shares <- secrets_share (stringToHex secretToShare) n t ;;
       match given password with
       | Some pw => encryptShares shares pw
       | None => ret shares
       end)
      (fun message => throw (js "Failed to create shares: " ++ message)) w.
Proof.
  intros H. unfold createShares.
  rewrite Z.gtb_ltb.
  destruct (Z.ltb_spec n t); [lia|].
  destruct (Z.ltb_spec t 2); [lia|].
  destruct (Z.ltb_spec n 2); [lia|]. reflexivity.
Qed.

Lemma createShares_rejects secret n t password w :
  ~ (2 <= t <= n) ->
  exists message,
    createShares secret n t password w = (Err message, w)
    /\ In message [js "Threshold cannot be greater than total shares";
                   js "Threshold must be at least 2";
                   js "Total shares must be at least 2"].
Proof.
  intros H. unfold createShares, throw. rewrite Z.gtb_ltb.
  destruct (Z.ltb_spec n t); [eexists; split; [reflexivity | now left]|].
  destruct (Z.ltb_spec t 2); [eexists; split; [reflexivity | right; now left]|].
  lia.
Qed.

Lemma createShares_ok_counts secret n t password w shares w' :
  createShares secret n t password w = (Ok shares, w') -> 2 <= t <= n.
Proof.
  intros H. destruct (Z.le_gt_cases 2 t); [destruct (Z.le_gt_cases t n)|];
    [lia| |].
  all: destruct (createShares_rejects secret n t password w) as (m & E & _);
    [lia | rewrite E in H; discriminate].
Qed.

(** Without a usable password the shares are those of the package. *)
Lemma createShares_plain secret n t password w :
  2 <= t <= n -> given password = None ->
  createShares secret n t password w
  = match secrets_share (stringToHex secret) n t w with
    | (Ok shares, w') => (Ok shares, w')
    | (Err message, w') => (Err (js "Failed to create shares: " ++ message), w')
    end.
Proof.
  intros H Hpw. rewrite createShares_guards by assumption. rewrite Hpw.
  unfold try_catch, bind, ret, throw.
  destruct (secrets_share (stringToHex secret) n t w) as [[shares|m] w'];
    reflexivity.
Qed.

(** With a password: the secret is encrypted, the token is split, and
    every share is encrypted. *)
Lemma createShares_protected secret n t pw w shares w' :
  pw <> [] ->
  createShares secret n t (Some pw) w = (Ok shares, w') ->
  exists c w1 plain w2,
    AES_encrypt secret pw w = (Ok c, w1)
    /\ secrets_share (stringToHex (marker ++ c)) n t w1 = (Ok plain, w2)
    /\ encryptShares plain pw w2 = (Ok shares, w').
Proof.
  intros Hpw H. pose proof (createShares_ok_counts _ _ _ _ _ _ _ H) as Hc.
  rewrite createShares_guards in H by assumption.
  rewrite (given_nonempty _ Hpw) in H.
  unfold encrypt in H. unfold try_catch, bind, ret, throw in H.
  destruct (AES_encrypt secret pw w) as [[c|m] w1] eqn:Ec;
    [|cbv beta iota in H; discriminate H].
  destruct (secrets_share (stringToHex (marker ++ c)) n t w1)
    as [[plain|m] w2] eqn:Es; [|cbv beta iota in H; discriminate H].
  destruct (encryptShares plain pw w2) as [[es|m] w3] eqn:E;
    [|cbv beta iota in H; discriminate H].
  injection H as <- <-. exists c, w1, plain, w2. auto.
Qed.

(** Each encrypted share is the marker and a ciphertext of the plain
    share. *)
Lemma encryptShares_spec plain pw w shares w' :
  AES_round_trip L ->
  encryptShares plain pw w = (Ok shares, w') ->
  Forall2 (fun p e => exists c, e = marker ++ c
                        /\ forall w2, fst (AES_decrypt_utf8 c pw w2) = Ok p)
    plain shares.
Proof.
  intros Hrt. unfold encryptShares.
  revert w shares w'. induction plain as [|p plain IH]; intros w shares w' H.
  - cbn in H. injection H as <- <-. constructor.
  - cbn [mapM] in H. unfold encrypt in H. unfold bind, ret in H.
    destruct (AES_encrypt p pw w) as [[c|m] w1] eqn:Ec; [|discriminate].
    destruct (mapM _ plain w1) as [[es|m] w2] eqn:Em; [|discriminate].
    injection H as <- <-. constructor; [|now apply (IH w1 es w2)].
    exists c. split; [reflexivity|]. exact (Hrt _ _ _ _ _ Ec).
Qed.

(** Each encrypted share is the marker and what the cipher returned for
    the plain share under the password. *)
Lemma encryptShares_origin plain pw w shares w' :
  encryptShares plain pw w = (Ok shares, w') ->
  Forall2 (fun p e => exists c wa wb,
               e = marker ++ c /\ AES_encrypt p pw wa = (Ok c, wb))
    plain shares.
Proof.
  unfold encryptShares.
  revert w shares w'. induction plain as [|p plain IH]; intros w shares w' H.
  - cbn in H. injection H as <- <-. constructor.
  - cbn [mapM] in H. unfold encrypt in H. unfold bind, ret in H.
    destruct (AES_encrypt p pw w) as [[c|m] w1] eqn:Ec; [|discriminate].
    destruct (mapM _ plain w1) as [[es|m] w2] eqn:Em; [|discriminate].
    injection H as <- <-. constructor; [|now apply (IH w1 es w2)].
    now exists c, w, w1.
Qed.

(** [decrypt] on a string, as a function of what the cipher returns for
    the ciphertext it takes from it. *)
Lemma decrypt_run text pw w :
  decrypt text pw w
  = match AES_decrypt_utf8
            (if startsWith text marker then substring 10 text else text) pw w with
    | (Err message, w') => (Err message, w')
    | (Ok [], w') =>
        (Err (js "Failed to decrypt - invalid password or corrupted data"), w')
    | (Ok result, w') => (Ok result, w')
    end.
Proof.
  unfold decrypt. cbv zeta. unfold bind, ret, throw.
  destruct (AES_decrypt_utf8 _ pw w) as [[[|c r]|m] w']; reflexivity.
Qed.

Lemma decrypt_marked c pw w :
  decrypt (marker ++ c) pw w
  = match AES_decrypt_utf8 c pw w with
    | (Err message, w') => (Err message, w')
    | (Ok [], w') =>
        (Err (js "Failed to decrypt - invalid password or corrupted data"), w')
    | (Ok result, w') => (Ok result, w')
    end.
Proof. rewrite decrypt_run, startsWith_app. reflexivity. Qed.

(** A non-empty text the cipher returns in a world is what [decrypt]
    returns there. *)
Lemma decrypt_marked_ok c pw w text :
  fst (AES_decrypt_utf8 c pw w) = Ok text -> text <> [] ->
  exists w', decrypt (marker ++ c) pw w = (Ok text, w').
Proof.
  intros H Hne. rewrite decrypt_marked.
  destruct (AES_decrypt_utf8 c pw w) as [[r|m] w']; cbn [fst] in H; [|discriminate].
  injection H as ->. exists w'. destruct text; [congruence | reflexivity].
Qed.

Lemma Forall2_pick {R : jsstring -> jsstring -> Prop} plain shares idx :
  Forall2 R plain shares ->
  Forall (fun i => (i < List.length shares)%nat) idx ->
  Forall2 R (pick idx plain) (pick idx shares).
Proof.
  intros HR Hidx. induction Hidx as [|i idx Hi _ IH]; [constructor|].
  cbn [pick map]. constructor; [|exact IH].
  clear IH. revert i Hi. induction HR as [|p e plain shares Hpe _ IH]; intros i Hi.
  - cbn in Hi. lia.
  - destruct i as [|i]; [exact Hpe|]. cbn [nth]. apply IH. cbn in Hi. lia.
Qed.

Lemma Forall2_length_eq {R : jsstring -> jsstring -> Prop} l1 l2 :
  Forall2 R l1 l2 -> List.length l1 = List.length l2.
Proof. induction 1; cbn; congruence. Qed.

Lemma Forall_pick (P : jsstring -> Prop) shares idx :
  Forall P shares -> Forall (fun i => (i < List.length shares)%nat) idx ->
  Forall P (pick idx shares).
Proof.
  intros HP Hidx. induction Hidx as [|i idx Hi _ IH]; [constructor|].
  cbn [pick map]. constructor; [|exact IH].
  rewrite Forall_forall in HP. apply HP. now apply nth_In.
Qed.

(** Decrypting marked ciphertexts of non-empty shares gives the shares. *)
Lemma decryptShares_spec plain shares pw :
  Forall2 (fun p e => exists c, e = marker ++ c
                        /\ forall w2, fst (AES_decrypt_utf8 c pw w2) = Ok p)
    plain shares ->
  Forall (fun p => p <> []) plain ->
  forall w, exists w', decryptShares shares pw w = (Ok plain, w').
Proof.
  unfold decryptShares. induction 1 as [|p e plain shares Hpe _ IH];
    intros Hne w; [now exists w|].
  destruct Hpe as (c & He & Hc). inversion Hne as [|? ? Hp Hplain]; subst.
  cbn [mapM]. unfold bind at 1.
  destruct (decrypt_marked_ok c pw w p (Hc w) Hp) as (w1 & ->).
  unfold bind at 1. destruct (IH Hplain w1) as (w2 & ->).
  now exists w2.
Qed.

End EngineFacts.

(* ================================================================== *)
(** ** The reference instance meets the contracts *)

Module ReferenceFacts.
Import Buffer BufferFacts Reference.

Lemma share_ok hex n t w shares w' :
  share hex n t w = (Ok shares, w') ->
  2 <= t <= n /\ n <= 255 /\ forallb is_hex_digit hex = true
  /\ shares = map (token hex) (share_ids n).
Proof.
  unfold share. rewrite Z.gtb_ltb.
  destruct (Z.ltb_spec n 2), (Z.ltb_spec 255 n), (Z.ltb_spec t 2),
    (Z.ltb_spec 255 t), (Z.ltb_spec n t); cbn [orb]; try discriminate.
  destruct (forallb is_hex_digit hex); cbn [negb]; [|discriminate].
  intros E. injection E as <- <-. repeat split; lia.
Qed.

Lemma checks_capacity : share_checks_capacity packages.
Proof.
  intros hex n t w Hn. cbn. unfold share.
  destruct (Z.ltb_spec n 2), (Z.ltb_spec 255 n); cbn [orb]; eauto; lia.
Qed.

Lemma accepts : share_accepts packages.
Proof.
  intros hex n t w Hhex Ht Hn. cbn. unfold share. rewrite Z.gtb_ltb, Hhex.
  destruct (Z.ltb_spec n 2), (Z.ltb_spec 255 n), (Z.ltb_spec t 2),
    (Z.ltb_spec 255 t), (Z.ltb_spec n t); cbn [orb negb]; try lia; eauto.
Qed.

Lemma tokens hex n :
  Forall (fun s => exists id, 1 <= id <= n /\ s = token hex id)
    (map (token hex) (share_ids n)).
Proof.
  apply Forall_forall. intros s Hs. apply in_map_iff in Hs as (id & <- & Hid).
  exists id. split; [|reflexivity].
  unfold share_ids in Hid. apply in_map_iff in Hid as (k & <- & Hk).
  apply in_seq in Hk. lia.
Qed.

Lemma returns_n : share_returns_n packages.
Proof.
  intros hex n t w shares w' H. cbn in H.
  apply share_ok in H as (Ht & Hn & _ & ->). split.
  - unfold len, share_ids. rewrite !length_map, length_seq. lia.
  - eapply Forall_impl; [|apply tokens]. cbn beta.
    intros s (id & _ & ->). discriminate.
Qed.

Lemma valid_token_token hex id :
  forallb is_hex_digit hex = true -> 1 <= id <= 255 ->
  valid_token (token hex id) = true /\ skipn 3 (token hex id) = map lower_hex hex.
Proof.
  intros Hhex Hid. split; [|reflexivity].
  unfold token. change (js "8") with [56]. cbn [app valid_token toString_hex].
  rewrite !len_cons.
  pose proof (len_nonneg (map lower_hex hex)).
  destruct (Z.leb_spec 2 (1 + (1 + len (map lower_hex hex)))); [|lia].
  assert (Hb : byte id) by (unfold byte; lia).
  destruct (byte_nibbles id Hb) as [Hhi Hlo].
  cbn [andb forallb].
  rewrite (hex_digit_is_hex _ Hhi), (hex_digit_is_hex _ Hlo). cbn [andb].
  rewrite forallb_forall in *. intros c Hc.
  apply in_map_iff in Hc as (d & <- & Hd). specialize (Hhex d Hd). zcases.
Qed.

Lemma recovers : combine_recovers packages.
Proof.
  intros hex n t w shares w' H idx w2 [_ Hidx] Hlen. cbn in H |- *.
  apply share_ok in H as (Ht & Hn & Hhex & ->).
  assert (Hall : Forall (fun s => valid_token s = true
                                  /\ skipn 3 s = map lower_hex hex)
                   (pick idx (map (token hex) (share_ids n)))).
  { apply Forall_pick; [|exact Hidx].
    eapply Forall_impl; [|apply tokens]. cbn beta. intros s (id & Hid & ->).
    apply valid_token_token; [assumption | lia]. }
  destruct (pick idx (map (token hex) (share_ids n))) as [|s rest] eqn:E.
  - assert (len idx = 0) by (rewrite <- len_pick with (shares := map (token hex) (share_ids n)), E; reflexivity).
    lia.
  - unfold combine.
    replace (forallb valid_token (s :: rest)) with true.
    + cbn [fst]. inversion Hall as [|? ? [_ Hs] _]; subst. now rewrite Hs.
    + symmetry. apply forallb_forall. rewrite Forall_forall in Hall.
      intros x Hx. now apply Hall.
Qed.

Lemma bytes_of_units_bytes us : well_formed us -> Forall byte (bytes_of_units us).
Proof.
  induction 1 as [|u us Hu _ IH]; [constructor|].
  cbn [bytes_of_units]. constructor; [|constructor; [|exact IH]];
    unfold byte; Z.div_mod_to_equations; lia.
Qed.

Lemma units_of_bytes_of_units us : units_of_bytes (bytes_of_units us) = us.
Proof.
  induction us as [|u us IH]; [reflexivity|].
  cbn [bytes_of_units units_of_bytes]. rewrite IH. f_equal.
  Z.div_mod_to_equations; lia.
Qed.

Lemma len_bytes_of_units us : len (bytes_of_units us) = 2 * len us.
Proof.
  induction us as [|u us IH]; [reflexivity|].
  cbn [bytes_of_units]. rewrite !len_cons, IH. lia.
Qed.

Lemma aes_encrypt_ok text password w ciphertext w' :
  aes_encrypt text password w = (Ok ciphertext, w') ->
  well_formed (salted :: w mod 65536 :: len password :: password ++ text)
  /\ ciphertext = toString_hex
       (bytes_of_units
          (salted :: w mod 65536 :: len password :: password ++ text)).
Proof.
  unfold aes_encrypt.
  destruct (well_formedb text) eqn:Et; [|discriminate].
  destruct (well_formedb password) eqn:Ep; [|discriminate].
  destruct (Z.ltb_spec (len password) 65536); [|discriminate].
  cbn [andb]. intros E.
  split; [|congruence].
  apply well_formedb_spec in Et, Ep. pose proof (len_nonneg password).
  constructor; [unfold salted; lia|].
  constructor; [apply Z.mod_pos_bound; lia|].
  constructor; [lia|]. apply Forall_app. now split.
Qed.

(** A token of the reference cipher is opened in any world, and the world
    is left as it was. *)
Lemma aes_decrypt_salted units password w :
  well_formed (salted :: units) ->
  aes_decrypt_utf8 (toString_hex (bytes_of_units (salted :: units))) password w
  = (open_salted units password, w).
Proof.
  intros Hwf. unfold aes_decrypt_utf8.
  rewrite from_hex_toString_hex by now apply bytes_of_units_bytes.
  rewrite units_of_bytes_of_units. now rewrite Z.eqb_refl.
Qed.

Lemma round_trip : AES_round_trip packages.
Proof.
  intros text password w c w' H w2. cbn in H |- *.
  apply aes_encrypt_ok in H as [Hwf ->].
  rewrite aes_decrypt_salted by assumption. cbn [fst]. unfold open_salted.
  assert (Hn : Z.to_nat (len password) = List.length password)
    by (unfold len; lia).
  rewrite Hn, firstn_app, Nat.sub_diag, firstn_all, firstn_O, app_nil_r.
  rewrite eqb_refl, len_app.
  pose proof (len_nonneg text).
  destruct (Z.leb_spec (len password) (len password + len text)); [|lia].
  cbn [andb]. rewrite skipn_app, Nat.sub_diag, skipn_all. reflexivity.
Qed.


Lemma prints_base64 : AES_prints_base64 packages.
Proof.
  intros text password w c w' H. cbn in H.
  apply aes_encrypt_ok in H as [Hwf ->]. split.
  - pose proof (toString_hex_is_hex _ (bytes_of_units_bytes _ Hwf)) as Hhex.
    rewrite forallb_forall in *. intros x Hx. specialize (Hhex x Hx). zcases.
  - rewrite len_toString_hex, len_bytes_of_units.
    replace (2 * (2 * len (salted :: w mod 65536 :: len password
                             :: password ++ text)))
      with (len (salted :: w mod 65536 :: len password :: password ++ text) * 4)
      by lia.
    apply Z.mod_mul. lia.
Qed.

End ReferenceFacts.

(* ================================================================== *)
(** ** Restoring, as a function of what [secrets.combine] returns *)

Section RestoreFacts.
Context {L : Libraries}.
Import EncryptionUtils.

Lemma combine_and_finish_run l password w :
  try_catch (combine_and_finish l password) restore_failure w
  = finish password (secrets_combine l w).
Proof.
  unfold try_catch, combine_and_finish, restore_failure, bind, ret, throw, finish.
  destruct (secrets_combine l w) as [[hex|m] w']; [|reflexivity].
  destruct (given password) as [pw|]; [|reflexivity].
  destruct (isEncrypted (hexToString hex)); [|reflexivity].
  destruct (decrypt (hexToString hex) pw w') as [[secret|m] w2]; reflexivity.
Qed.

(** What [finish] returns is a secret or a message with the prefix of the
    [catch] clause. *)
Lemma finish_outcome password combined :
  (exists secret, fst (finish password combined) = Ok secret)
  \/ (exists message,
        fst (finish password combined)
        = Err (js "Failed to restore secret: " ++ message)).
Proof.
  unfold finish. destruct combined as [[hex|m] w]; [|right; now exists m].
  destruct (given password) as [pw|]; [|left; now eexists].
  destruct (isEncrypted (hexToString hex)); [|left; now eexists].
  destruct (decrypt (hexToString hex) pw w) as [[secret|m] w'];
    [left; now eexists | right; now exists m].
Qed.

(** Past the length guard, either decrypting the shares fails, or some
    list reaches [secrets.combine], in some world, and the outcome is
    [finish] of what it returns. *)
Lemma restoreSecret_run shares password w :
  2 <= len shares ->
  (exists message w',
      restoreSecret shares password w
      = (Err (js "Failed to restore secret: " ++ message), w'))
  \/ (exists l w1,
        restoreSecret shares password w
        = finish password (secrets_combine l w1)).
Proof.
  intros Hlen. destruct (given password) as [pw|] eqn:Epw.
  - destruct (isEncrypted (nth 0 shares [])) eqn:Efirst.
    + rewrite (restoreSecret_open_gate _ _ pw) by assumption.
      destruct (decryptShares shares pw w) as [[l|m] w1] eqn:Ed.
      * right. exists l, w1. rewrite <- combine_and_finish_run.
        unfold try_catch, bind. rewrite Ed. reflexivity.
      * left. exists m, w1.
        unfold try_catch, bind, restore_failure, throw. rewrite Ed. reflexivity.
    + right. exists shares, w.
      rewrite restoreSecret_closed_gate by auto. apply combine_and_finish_run.
  - right. exists shares, w.
    rewrite restoreSecret_closed_gate by auto. apply combine_and_finish_run.
Qed.

(** Without a usable password the restored secret is the decoding of the
    combined hex. *)
Lemma restore_plain shares password w hex :
  2 <= len shares -> given password = None ->
  fst (secrets_combine shares w) = Ok hex ->
  fst (restoreSecret shares password w) = Ok (hexToString hex).
Proof.
  intros Hlen Hpw Hc. rewrite restoreSecret_closed_gate by auto.
  rewrite combine_and_finish_run. unfold finish.
  destruct (secrets_combine shares w) as [[h|m] w']; cbn [fst] in Hc;
    [|discriminate].
  injection Hc as ->. now rewrite Hpw.
Qed.


(** The marker is not base64 text. *)
Lemma base64_not_marked c : forallb is_base64 c = true -> isEncrypted c = false.
Proof.
  intros Hc. unfold isEncrypted. destruct (startsWith c marker) eqn:E; [|reflexivity].
  apply startsWith_inv in E. rewrite forallb_forall in Hc.
  assert (Hin : In 58 c) by (rewrite E; apply in_or_app; left; cbn; tauto).
  specialize (Hc 58 Hin). discriminate.
Qed.

(** A marked base64 token goes through the encoder and the decoder
    unchanged. *)
Lemma token_codec c :
  forallb is_base64 c = true -> len c mod 4 = 0 ->
  let token := marker ++ c in
  forallb is_hex_digit (stringToHex token) = true
  /\ hexToString (map lower_hex (stringToHex token)) = token.
Proof.
  intros Hc Hlen token.
  assert (Hascii : ascii_text token).
  { apply Forall_app. split.
    - repeat constructor; lia.
    - apply Forall_forall. rewrite forallb_forall in Hc. intros x Hx.
      specialize (Hc x Hx). zcases. }
  assert (Hhex : stringToHex token = Buffer.toString_hex token).
  { apply CodecFacts.stringToHex_text; [assumption|].
    exists 58. split; [apply in_or_app; left; cbn; tauto | reflexivity]. }
  pose proof (BufferFacts.ascii_bytes _ Hascii) as Hbytes.
  rewrite Hhex, BufferFacts.toString_hex_lower by assumption.
  split; [now apply BufferFacts.toString_hex_is_hex|].
  subst token. change (marker ++ c) with (101 :: skipn 1 marker ++ c) in *.
  apply CodecFacts.hexToString_text; [assumption | lia | | reflexivity].
  change (101 :: skipn 1 marker ++ c) with (marker ++ c).
  rewrite len_app. change (len marker) with 10.
  intros E. assert (len c = 22) by lia.
  rewrite H in Hlen. discriminate.
Qed.


(** Restoring shares of a split made with a password, with that password:
    the secret, whatever the world; for the empty secret, the failure
    [decrypt] makes of an empty text. *)
Lemma restore_own_protected secret n t pw w shares w' idx w2 :
  share_returns_n L -> combine_recovers L ->
  AES_round_trip L -> AES_prints_base64 L ->
  pw <> [] ->
  createShares secret n t (Some pw) w = (Ok shares, w') ->
  choice idx shares -> t <= len idx ->
  fst (restoreSecret (pick idx shares) (Some pw) w2)
  = match secret with
    | [] => Err (js "Failed to restore secret: "
                   ++ js "Failed to decrypt - invalid password or corrupted data")
    | _ :: _ => Ok secret
    end.
Proof.
  intros Hret Hrec Hrt Hb64 Hpw Hcreate [Hdup Hidx] Hlen.
  pose proof (createShares_ok_counts _ _ _ _ _ _ _ Hcreate) as Hcounts.
  destruct (createShares_protected _ _ _ _ _ _ _ Hpw Hcreate)
    as (c & w1 & plain & w3 & Hc & Hsplit & Henc).
  pose proof (encryptShares_spec _ _ _ _ _ Hrt Henc) as Hpairs.
  destruct (Hret _ _ _ _ _ _ Hsplit) as [Hn Hne].
  pose proof (Forall2_length_eq _ _ Hpairs) as Hsame.
  assert (Hidx' : Forall (fun i => (i < List.length plain)%nat) idx)
    by now rewrite Hsame.
  pose proof (Forall2_pick _ _ _ Hpairs Hidx) as Hpicked.
  assert (Hlong : 2 <= len (pick idx shares)) by (rewrite len_pick; lia).
  assert (Hopen : isEncrypted (nth 0 (pick idx shares) []) = true).
  { destruct Hpicked as [|p e ps es (c0 & -> & _) _].
    - rewrite len_nil in Hlong. lia.
    - apply startsWith_app. }
  rewrite (restoreSecret_open_gate _ _ pw) by
    (try assumption; now apply given_nonempty).
  destruct (decryptShares_spec _ _ _ Hpicked (Forall_pick _ _ _ Hne Hidx') w2)
    as (w4 & Hdec).
  assert (Hstep : try_catch (sharesToUse <- decryptShares (pick idx shares) pw ;;
                             combine_and_finish sharesToUse (Some pw))
                    restore_failure w2
                  = try_catch (combine_and_finish (pick idx plain) (Some pw))
                      restore_failure w4).
  { unfold try_catch, bind at 1. rewrite Hdec. reflexivity. }
  rewrite Hstep, combine_and_finish_run.
  pose proof (Hrec _ _ _ _ _ _ Hsplit idx w4 (conj Hdup Hidx') Hlen) as Hcombined.
  destruct (secrets_combine (pick idx plain) w4) as [[hex|m] w5];
    cbn [fst] in Hcombined; [|discriminate].
  assert (Hhex : hex = map lower_hex (stringToHex (marker ++ c))) by congruence.
  subst hex.
  destruct (Hb64 _ _ _ _ _ Hc) as [Hchars Hmod].
  destruct (token_codec c Hchars Hmod) as [_ Hback].
  unfold finish. rewrite (given_nonempty _ Hpw), Hback.
  unfold isEncrypted at 1. rewrite startsWith_app, decrypt_marked.
  pose proof (Hrt _ _ _ _ _ Hc w5) as Htext.
  destruct (AES_decrypt_utf8 c pw w5) as [[text|m] w6]; cbn [fst] in Htext;
    [|discriminate].
  injection Htext as ->. destruct secret; reflexivity.
Qed.

End RestoreFacts.

(* ================================================================== *)
(** ** The claims *)

Import EncryptionUtils.

(** C6 — Encoder classification.  A non-empty string of hexadecimal digits
    is its own canonical hex when its length is even, and gets one leading
    digit 0 when its length is odd; every other string is encoded as the
    hex of its UTF-8 bytes. *)
Theorem C6_encoder_classification (str : jsstring) :
  (str <> [] -> forallb is_hex_digit str = true -> len str mod 2 = 0 ->
   stringToHex str = str)
  /\ (str <> [] -> forallb is_hex_digit str = true -> len str mod 2 = 1 ->
      stringToHex str = js "0" ++ str)
  /\ (str = [] \/ forallb is_hex_digit str = false ->
      stringToHex str = Buffer.toString_hex (Buffer.from_utf8 str)).
Proof.
  unfold stringToHex. repeat split.
  - intros Hne Hhex Heven. destruct str; [congruence|].
    unfold test_all. rewrite Hhex, Heven. reflexivity.
  - intros Hne Hhex Hodd. destruct str; [congruence|].
    unfold test_all. rewrite Hhex, Hodd. reflexivity.
  - intros [->|Hnot]; [reflexivity|].
    destruct str; [reflexivity|]. unfold test_all. now rewrite Hnot.
Qed.

Lemma C6_encoder_classification_witness :
  stringToHex Samples.test_key = Samples.test_key
  /\ stringToHex (js "abc") = js "0abc"
  /\ stringToHex Samples.short_phrase
     = js "6920616d206120676f20746f206265206f7220736f20776520757020616e206f".
Proof.
  split; [|split].
  - apply (proj1 (C6_encoder_classification Samples.test_key));
      [discriminate | reflexivity | reflexivity].
  - apply (proj1 (proj2 (C6_encoder_classification (js "abc"))));
      [discriminate | reflexivity | reflexivity].
  - rewrite (proj2 (proj2 (C6_encoder_classification Samples.short_phrase)));
      [reflexivity | right; reflexivity].
Defined.

(** C5 — Decoder steps 1 and 2, at a key whose first digit is 0.  The
    string has no leading zero byte and is 64 hexadecimal digits, so the
    steps as specified return it unchanged; [hexToString] removes the
    leading digit, finds 63 digits, and returns the UTF-8 reading of the
    first 31 bytes of what is left. *)
Theorem C5_leading_zero_digit :
  spec_strip_leading_zero_bytes Samples.zero_key = Samples.zero_key
  /\ hex_key Samples.zero_key = true
  /\ hexToString Samples.zero_key
     = Buffer.toString_utf8 (Buffer.from_hex (skipn 1 Samples.zero_key))
  /\ len (hexToString Samples.zero_key) = 31
  /\ hexToString Samples.zero_key <> Samples.zero_key.
Proof.
  repeat split; try reflexivity.
  intros E. vm_compute in E. discriminate E.
Qed.

(** C10 — The marker does not change what [decrypt] does: for a string
    that does not itself begin with the marker, decrypting it with the
    marker in front and decrypting it bare have the same outcome. *)
Theorem C10_marker_insensitive (L : Libraries) (s p : jsstring) (w : World) :
  isEncrypted s = false -> decrypt (marker ++ s) p w = decrypt s p w.
Proof.
  intros H. rewrite decrypt_marked, decrypt_run.
  unfold isEncrypted in H. rewrite H. reflexivity.
Qed.

Lemma C10_marker_insensitive_witness :
  isEncrypted Samples.bare_ciphertext = false
  /\ decrypt (L := Reference.packages) (marker ++ Samples.bare_ciphertext)
       Samples.password 0
     = decrypt (L := Reference.packages) Samples.bare_ciphertext
         Samples.password 0.
Proof.
  split; [reflexivity|].
  apply (C10_marker_insensitive Reference.packages). reflexivity.
Defined.

(** C7 — Minimum share count.  With fewer than two shares [restoreSecret]
    throws "At least 2 shares are required" and the world is untouched:
    nothing was decrypted or combined.  With two or more shares that
    error is never the outcome. *)
Theorem C7_minimum_share_count (L : Libraries) (shares : list jsstring)
    (password : option jsstring) (w : World) :
  (len shares < 2 ->
   restoreSecret shares password w
   = (Err (js "At least 2 shares are required"), w))
  /\ (2 <= len shares ->
      fst (restoreSecret shares password w)
      <> Err (js "At least 2 shares are required")).
Proof.
  split; [apply restoreSecret_short|].
  intros Hlen E.
  destruct (restoreSecret_run shares password w Hlen)
    as [(m & w' & Hm)|(l & w1 & Hl)].
  - rewrite Hm in E. cbn in E. discriminate E.
  - rewrite Hl in E.
    destruct (finish_outcome password (secrets_combine l w1)) as [(r & Hr)|(m & Hm)].
    + rewrite Hr in E. discriminate E.
    + rewrite Hm in E. cbn in E. discriminate E.
Qed.

Lemma C7_minimum_share_count_witness :
  restoreSecret (L := Reference.packages)
    (firstn 1 (Samples.shares_of Samples.test_key 3 2 None)) None 0
  = (Err (js "At least 2 shares are required"), 0)
  /\ fst (restoreSecret (L := Reference.packages)
            (firstn 2 (Samples.shares_of Samples.test_key 3 2 None)) None 0)
     <> Err (js "At least 2 shares are required").
Proof.
  split.
  - apply (proj1 (C7_minimum_share_count Reference.packages _ None 0)).
    vm_compute. reflexivity.
  - apply (proj2 (C7_minimum_share_count Reference.packages _ None 0)).
    vm_compute. discriminate.
Defined.

(** C9 — The share-decryption gate.  With at least two shares: when the
    first share does not begin with the marker (or no usable password is
    given) the list is handed to [secrets.combine] as it is, whatever the
    later shares look like; the shares are decrypted exactly when a usable
    password is given and the first share begins with the marker. *)
Theorem C9_share_decryption_gate (L : Libraries) (shares : list jsstring)
    (password : option jsstring) (w : World) :
  2 <= len shares ->
  (isEncrypted (nth 0 shares []) = false \/ given password = None ->
   restoreSecret shares password w
   = try_catch (combine_and_finish shares password) restore_failure w)
  /\ (forall pw,
        given password = Some pw -> isEncrypted (nth 0 shares []) = true ->
        restoreSecret shares password w
        = try_catch (sharesToUse <- decryptShares shares pw ;;
                     combine_and_finish sharesToUse password)
            restore_failure w).
Proof.
  intros Hlen. split.
  - intros Hgate. apply restoreSecret_closed_gate; tauto.
  - intros pw Hpw Hfirst. now apply restoreSecret_open_gate.
Qed.

Lemma C9_share_decryption_gate_witness :
  let shares := [js "801abcd"; marker ++ Samples.bare_ciphertext] in
  2 <= len shares
  /\ isEncrypted (nth 0 shares []) = false
  /\ restoreSecret (L := Reference.packages) shares (Some Samples.password) 0
     = try_catch (L := Reference.packages)
         (combine_and_finish shares (Some Samples.password)) restore_failure 0.
Proof.
  intros shares. split; [vm_compute; discriminate|]. split; [reflexivity|].
  apply (proj1 (C9_share_decryption_gate Reference.packages shares
                  (Some Samples.password) 0 ltac:(vm_compute; discriminate))).
  left. reflexivity.
Defined.




(** What restoring returns after a split without password, for every
    secret: the decoding of the canonical hex as the sharing package prints
    it. *)
Lemma restore_after_create (L : Libraries) :
  share_accepts L -> share_returns_n L -> combine_recovers L ->
  forall (secret : jsstring) (n t : Z) (w : World),
    forallb is_hex_digit (stringToHex secret) = true ->
    2 <= t <= n -> n <= 255 ->
    exists shares w',
      createShares secret n t None w = (Ok shares, w')
      /\ len shares = n
      /\ forall idx w2,
           choice idx shares -> len idx = t ->
           fst (restoreSecret (pick idx shares) None w2)
           = Ok (hexToString (map lower_hex (stringToHex secret))).
Proof.
  intros Hacc Hret Hrec secret n t w Hhex Ht Hn.
  destruct (Hacc _ n t w Hhex Ht Hn) as (shares & w' & E).
  exists shares, w'. rewrite createShares_plain by auto. rewrite E.
  split; [reflexivity|]. split; [exact (proj1 (Hret _ _ _ _ _ _ E))|].
  intros idx w2 Hidx Hlen.
  apply restore_plain; [rewrite len_pick; lia | reflexivity|].
  apply (Hrec _ _ _ _ _ _ E); [assumption | lia].
Qed.

(** With any packages that meet the contracts, a key whose first digit is
    0 is not restored: every [t] shares of it give the decoding of the
    63 digits that are left once the leading one is removed. *)
Lemma zero_key_is_not_restored (L : Libraries) :
  share_accepts L -> share_returns_n L -> combine_recovers L ->
  forall (n t : Z) (w : World),
    2 <= t <= n -> n <= 255 ->
    exists shares w',
      createShares Samples.zero_key n t None w = (Ok shares, w')
      /\ forall idx w2,
           choice idx shares -> len idx = t ->
           fst (restoreSecret (pick idx shares) None w2)
           = Ok (hexToString Samples.zero_key)
           /\ hexToString Samples.zero_key <> Samples.zero_key.
Proof.
  intros Hacc Hret Hrec n t w Ht Hn.
  destruct (restore_after_create L Hacc Hret Hrec Samples.zero_key n t w
              eq_refl Ht Hn) as (shares & w' & E & _ & Hback).
  exists shares, w'. split; [exact E|]. intros idx w2 Hidx Hlen.
  split; [exact (Hback idx w2 Hidx Hlen)|].
  intros F. vm_compute in F. discriminate F.
Qed.

(** C2 — Split-side validation.  [createShares] throws, before anything is
    computed, when the counts are not [2 <= t <= n]; it throws as well
    when [n > 255], the check being the sharing package's own, made before
    it computes a share; and for [2 <= t <= n <= 255] it returns [n]
    shares. *)
Theorem C2_split_validation (L : Libraries) :
  share_checks_capacity L -> share_accepts L -> share_returns_n L ->
  forall (secret : jsstring) (n t : Z),
    (t < 2 \/ n < 2 \/ t > n ->
     forall password w, exists message,
       createShares secret n t password w = (Err message, w)
       /\ In message [js "Threshold cannot be greater than total shares";
                      js "Threshold must be at least 2";
                      js "Total shares must be at least 2"])
    /\ (255 < n ->
        forall password w, exists message w',
          createShares secret n t password w = (Err message, w')
          /\ (given password = None -> w' = w))
    /\ (2 <= t <= n -> n <= 255 -> well_formed secret ->
        forall w, exists shares w',
          createShares secret n t None w = (Ok shares, w') /\ len shares = n).
Proof.
  intros Hcap Hacc Hret secret n t. split; [|split].
  - intros Hbad password w. apply createShares_rejects. lia.
  - intros Hn password w.
    destruct (Z.le_gt_cases 2 t) as [H2|H2];
      [destruct (Z.le_gt_cases t n) as [Htn|Htn]|].
    + rewrite createShares_guards by lia.
      unfold try_catch, bind, ret, throw.
      destruct (given password) as [pw|].
      * unfold encrypt. unfold bind, ret.
        destruct (AES_encrypt secret pw w) as [[c|m] w1].
        -- destruct (Hcap (stringToHex (marker ++ c)) n t w1 Hn) as (m & ->).
           eexists _, _. split; [reflexivity | discriminate].
        -- eexists _, _. split; [reflexivity | discriminate].
      * destruct (Hcap (stringToHex secret) n t w Hn) as (m & ->).
        eexists _, _. split; [reflexivity | reflexivity].
    + destruct (createShares_rejects secret n t password w) as (m & -> & _);
        [lia|]. eauto.
    + destruct (createShares_rejects secret n t password w) as (m & -> & _);
        [lia|]. eauto.
  - intros Ht Hn Hwf w.
    destruct (Hacc (stringToHex secret) n t w
                (CodecFacts.stringToHex_is_hex _ Hwf) Ht Hn) as (shares & w' & E).
    exists shares, w'. rewrite createShares_plain by auto. rewrite E.
    split; [reflexivity|]. exact (proj1 (Hret _ _ _ _ _ _ E)).
Qed.

Lemma C2_split_validation_witness :
  (exists message,
      createShares (L := Reference.packages) Samples.test_key 3 1 None 0
      = (Err message, 0))
  /\ (exists message w',
         createShares (L := Reference.packages) Samples.test_key 256 3 None 0
         = (Err message, w'))
  /\ (exists shares w',
         createShares (L := Reference.packages) Samples.test_key 255 255 None 0
         = (Ok shares, w') /\ len shares = 255).
Proof.
  pose proof (C2_split_validation Reference.packages
                ReferenceFacts.checks_capacity ReferenceFacts.accepts
                ReferenceFacts.returns_n) as H.
  split; [|split].
  - destruct (proj1 (H Samples.test_key 3 1) ltac:(lia) None 0) as (m & E & _).
    now exists m.
  - destruct (proj1 (proj2 (H Samples.test_key 256 3)) ltac:(lia) None 0)
      as (m & w' & E & _).
    now exists m, w'.
  - apply (proj2 (proj2 (H Samples.test_key 255 255))); [lia | lia |].
    apply well_formedb_spec. reflexivity.
Defined.

(** C1 — Round trip, as the code has it.  For a key of 64 lower-case
    hexadecimal digits that does not begin with 0, and for a passphrase of
    at least 12 words of letters a-z separated by single spaces that is not
    32 characters long, and all [2 <= t <= n <= 255]: [createShares]
    returns [n] shares, and [restoreSecret] on any [t] of them, taken in
    any order, returns the secret. *)
Theorem C1_round_trip (L : Libraries) :
  share_accepts L -> share_returns_n L -> combine_recovers L ->
  forall (secret : jsstring) (n t : Z) (w : World),
    plain_key secret = true \/ (passphrase secret = true /\ len secret <> 32) ->
    2 <= t <= n -> n <= 255 ->
    exists shares w',
      createShares secret n t None w = (Ok shares, w')
      /\ len shares = n
      /\ forall idx w2,
           choice idx shares -> len idx = t ->
           fst (restoreSecret (pick idx shares) None w2) = Ok secret.
Proof.
  intros Hacc Hret Hrec secret n t w Hsecret Ht Hn.
  assert (Hcodec : forallb is_hex_digit (stringToHex secret) = true
                   /\ hexToString (map lower_hex (stringToHex secret)) = secret).
  { destruct Hsecret as [Hkey|[Hphrase Hlen]].
    - destruct (CodecFacts.plain_key_codec _ Hkey) as (-> & -> & -> & Hhex).
      now split.
    - destruct (CodecFacts.passphrase_codec _ Hphrase Hlen)
        as (-> & -> & -> & Hhex).
      now split. }
  destruct Hcodec as [Hhex Hback].
  destruct (restore_after_create L Hacc Hret Hrec secret n t w Hhex Ht Hn)
    as (shares & w' & E & Hlen & Hrestore).
  exists shares, w'. split; [exact E|]. split; [exact Hlen|].
  intros idx w2 Hidx Hcount. rewrite <- Hback at 1. now apply Hrestore.
Qed.

Lemma C1_round_trip_witness :
  plain_key Samples.test_key = true
  /\ passphrase Samples.test_mnemonic = true
  /\ (exists shares w',
         createShares (L := Reference.packages) Samples.test_key 5 3 None 0
         = (Ok shares, w')
         /\ fst (restoreSecret (pick [4; 0; 2]%nat shares) None w')
            = Ok Samples.test_key)
  /\ (exists shares w',
         createShares (L := Reference.packages) Samples.test_mnemonic 3 2 None 0
         = (Ok shares, w')
         /\ fst (restoreSecret (pick [1; 2]%nat shares) None w')
            = Ok Samples.test_mnemonic).
Proof.
  pose proof (C1_round_trip Reference.packages ReferenceFacts.accepts
                ReferenceFacts.returns_n ReferenceFacts.recovers) as H.
  split; [reflexivity|]. split; [reflexivity|]. split.
  - destruct (H Samples.test_key 5 3 0) as (shares & w' & E & Hn & Hback);
      [left; reflexivity | lia | lia|].
    exists shares, w'. split; [exact E|]. apply Hback; [|reflexivity].
    assert (Hlen : List.length shares = 5%nat) by (unfold len in Hn; lia).
    split; [repeat constructor; cbn; intuition lia|].
    rewrite Hlen. repeat constructor; lia.
  - destruct (H Samples.test_mnemonic 3 2 0) as (shares & w' & E & Hn & Hback);
      [right; split; [reflexivity | vm_compute; discriminate] | lia | lia|].
    exists shares, w'. split; [exact E|]. apply Hback; [|reflexivity].
    assert (Hlen : List.length shares = 3%nat) by (unfold len in Hn; lia).
    split; [repeat constructor; cbn; intuition lia|].
    rewrite Hlen. repeat constructor; lia.
Defined.

(** C1, as stated, fails on the code: a key written in upper case comes
    back in lower case, and a passphrase of twelve words in 32 characters
    comes back as the 64 hexadecimal digits of its bytes. *)
Lemma C1_round_trip_counterexample :
  (hex_key Samples.upper_key = true
   /\ fst (restoreSecret (L := Reference.packages)
             (pick [0; 1]%nat (Samples.shares_of Samples.upper_key 3 2 None))
             None 1)
      = Ok (map lower_hex Samples.upper_key)
   /\ map lower_hex Samples.upper_key <> Samples.upper_key)
  /\ (passphrase Samples.short_phrase = true
      /\ fst (restoreSecret (L := Reference.packages)
                (pick [0; 1]%nat (Samples.shares_of Samples.short_phrase 3 2 None))
                None 1)
         = Ok (Buffer.toString_hex Samples.short_phrase)
      /\ Buffer.toString_hex Samples.short_phrase <> Samples.short_phrase).
Proof.
  repeat split; try reflexivity; intros E; vm_compute in E; discriminate E.
Qed.

(** C4 — What [decrypt] does, as the code has it.  The marker is not
    required: it is removed when the token begins with it, and the token
    is taken as the ciphertext otherwise.  [decrypt] throws exactly when
    the cipher throws or yields the empty text on that ciphertext, and
    otherwise returns the whole text the cipher produced.  So a ciphertext
    of a non-empty text decrypts to that text without the marker. *)
Theorem C4_decrypt_outcomes (L : Libraries) :
  AES_round_trip L -> AES_prints_base64 L ->
  forall (token password : jsstring),
    let ciphertext := if isEncrypted token then substring 10 token else token in
    (forall w,
        rejects ciphertext password w
        <-> exists message, fst (decrypt token password w) = Err message)
    /\ (forall w text,
          fst (decrypt token password w) = Ok text
          <-> text <> [] /\ fst (AES_decrypt_utf8 ciphertext password w) = Ok text)
    /\ (forall text w w',
          text <> [] -> AES_encrypt text password w = (Ok token, w') ->
          isEncrypted token = false
          /\ forall w2, fst (decrypt token password w2) = Ok text).
Proof.
  intros Hrt Hb64 token password ciphertext.
  assert (Hd : forall w,
             fst (decrypt token password w)
             = match fst (AES_decrypt_utf8 ciphertext password w) with
               | Err message => Err message
               | Ok [] => Err (js "Failed to decrypt - invalid password or corrupted data")
               | Ok result => Ok result
               end).
  { intros w. rewrite decrypt_run. fold (isEncrypted token). fold ciphertext.
    destruct (AES_decrypt_utf8 ciphertext password w) as [[[|c r]|m] w'];
      reflexivity. }
  split; [|split].
  - intros w. unfold rejects. rewrite Hd.
    destruct (fst (AES_decrypt_utf8 ciphertext password w)) as [[|c r]|m].
    + split; [eauto | trivial].
    + split; [contradiction | intros (m & E); discriminate E].
    + split; [eauto | trivial].
  - intros w text. rewrite Hd.
    destruct (fst (AES_decrypt_utf8 ciphertext password w)) as [[|c r]|m].
    + split; [discriminate | intros [Hne E]; injection E as <-; congruence].
    + split; [intros E; injection E as <-; split; [discriminate | reflexivity]
             | intros [_ E]; exact E].
    + split; [discriminate | intros [_ E]; discriminate E].
  - intros text w w' Hne E.
    destruct (Hb64 _ _ _ _ _ E) as [Hchars _].
    pose proof (base64_not_marked _ Hchars) as Hbare.
    split; [exact Hbare|]. intros w2.
    rewrite Hd. subst ciphertext. rewrite Hbare, (Hrt _ _ _ _ _ E w2).
    destruct text; [congruence | reflexivity].
Qed.

Lemma C4_decrypt_outcomes_witness :
  AES_round_trip Reference.packages /\ AES_prints_base64 Reference.packages
  /\ js "Hello, World!" <> []
  /\ @AES_encrypt Reference.packages (js "Hello, World!") Samples.password 0
     = (Ok Samples.bare_ciphertext, 1)
  /\ isEncrypted Samples.bare_ciphertext = false
  /\ fst (decrypt (L := Reference.packages) Samples.bare_ciphertext
            Samples.password 1)
     = Ok (js "Hello, World!").
Proof.
  split; [exact ReferenceFacts.round_trip|].
  split; [exact ReferenceFacts.prints_base64|].
  split; [discriminate|]. split; [reflexivity|].
  destruct (proj2 (proj2 (C4_decrypt_outcomes Reference.packages
                            ReferenceFacts.round_trip ReferenceFacts.prints_base64
                            Samples.bare_ciphertext Samples.password))
              (js "Hello, World!") 0 1) as [Hbare Hback];
    [discriminate | reflexivity|].
  split; [exact Hbare | exact (Hback 1)].
Defined.

(** C4, as stated, fails on the code: a token without the marker is
    decrypted, not turned down. *)
Lemma C4_decrypt_unmarked_counterexample :
  isEncrypted Samples.bare_ciphertext = false
  /\ fst (decrypt (L := Reference.packages) Samples.bare_ciphertext
            Samples.password 1)
     = Ok (js "Hello, World!")
  /\ decrypt (L := Reference.packages) Samples.bare_ciphertext Samples.password 1
     = decrypt (L := Reference.packages) (marker ++ Samples.bare_ciphertext)
         Samples.password 1.
Proof. repeat split. Qed.




(* ================================================================== *)
(** ** Further properties of the password layer *)

(** X1 — [encrypt] then [decrypt].  A token made by [encrypt] from a
    non-empty text begins with the marker, and [decrypt] under the same
    password gives the text back, in whatever world it is called. *)
Theorem X1_encrypt_decrypt (L : Libraries) :
  AES_round_trip L ->
  forall (text password : jsstring) (w w' : World) (token : jsstring),
    text <> [] ->
    encrypt text password w = (Ok token, w') ->
    isEncrypted token = true
    /\ forall w2, fst (decrypt token password w2) = Ok text.
Proof.
  intros Hrt text password w w' token Hne H.
  unfold encrypt in H. unfold bind, ret in H.
  destruct (AES_encrypt text password w) as [[c|m] w1] eqn:E;
    [|discriminate H].
  assert (Ht : marker ++ c = token) by congruence. subst token.
  split; [apply startsWith_app|]. intros w2.
  destruct (decrypt_marked_ok c password w2 text (Hrt _ _ _ _ _ E w2) Hne)
    as (w3 & ->).
  reflexivity.
Qed.

Lemma X1_encrypt_decrypt_witness :
  js "Hello, World!" <> []
  /\ encrypt (L := Reference.packages) (js "Hello, World!") Samples.password 0
     = (Ok (marker ++ Samples.bare_ciphertext), 1)
  /\ fst (decrypt (L := Reference.packages) (marker ++ Samples.bare_ciphertext)
            Samples.password 1)
     = Ok (js "Hello, World!").
Proof.
  split; [discriminate|]. split; [reflexivity|].
  apply (X1_encrypt_decrypt Reference.packages ReferenceFacts.round_trip
           (js "Hello, World!") Samples.password 0 1);
    [discriminate | reflexivity].
Defined.

(** X2 — The empty text is lost.  [encrypt] accepts the empty text, but
    [decrypt] reads an empty plaintext as a failure: a token made from the
    empty text cannot be decrypted, even under its own password. *)
Theorem X2_empty_text_is_lost (L : Libraries) :
  AES_round_trip L ->
  forall (password : jsstring) (w w' : World) (token : jsstring),
    encrypt [] password w = (Ok token, w') ->
    forall w2,
      fst (decrypt token password w2)
      = Err (js "Failed to decrypt - invalid password or corrupted data").
Proof.
  intros Hrt password w w' token H w2.
  unfold encrypt in H. unfold bind, ret in H.
  destruct (AES_encrypt [] password w) as [[c|m] w1] eqn:E;
    [|discriminate H].
  assert (Ht : marker ++ c = token) by congruence. subst token.
  rewrite decrypt_marked. pose proof (Hrt _ _ _ _ _ E w2) as Hempty.
  destruct (AES_decrypt_utf8 c password w2) as [[text|m] w3]; cbn [fst] in Hempty;
    [|discriminate].
  injection Hempty as ->. reflexivity.
Qed.

Lemma X2_empty_text_is_lost_witness :
  exists token,
    encrypt (L := Reference.packages) [] Samples.password 0 = (Ok token, 1)
    /\ fst (decrypt (L := Reference.packages) token Samples.password 1)
       = Err (js "Failed to decrypt - invalid password or corrupted data").
Proof.
  eexists. split; [reflexivity|].
  apply (X2_empty_text_is_lost Reference.packages ReferenceFacts.round_trip
           Samples.password 0 1).
  reflexivity.
Defined.

(** X3 — [encryptShares] then [decryptShares].  When a list of non-empty
    shares is encrypted, there are as many tokens as shares, every token
    begins with the marker, and decrypting the list under the same
    password gives the shares back, in order, in whatever world. *)
Theorem X3_shares_encrypt_decrypt (L : Libraries) :
  AES_round_trip L ->
  forall (shares : list jsstring) (password : jsstring) (w w' : World)
         (tokens : list jsstring),
    Forall (fun share => share <> []) shares ->
    encryptShares shares password w = (Ok tokens, w') ->
    len tokens = len shares
    /\ Forall (fun token => isEncrypted token = true) tokens
    /\ forall w2, fst (decryptShares tokens password w2) = Ok shares.
Proof.
  intros Hrt shares password w w' tokens Hne H.
  pose proof (encryptShares_spec _ _ _ _ _ Hrt H) as Hpairs.
  split; [|split].
  - unfold len. now rewrite (Forall2_length_eq _ _ Hpairs).
  - clear - Hpairs. induction Hpairs as [|p e ps es (c & -> & _) _ IH];
      constructor; [apply startsWith_app | exact IH].
  - intros w2. destruct (decryptShares_spec _ _ _ Hpairs Hne w2) as (w3 & ->).
    reflexivity.
Qed.

Lemma X3_shares_encrypt_decrypt_witness :
  let shares := [js "801234567890abcdef"; js "802345678901bcdef0"] in
  exists tokens,
    encryptShares (L := Reference.packages) shares Samples.password 0
    = (Ok tokens, 2)
    /\ len tokens = 2
    /\ fst (decryptShares (L := Reference.packages) tokens Samples.password 2)
       = Ok shares.
Proof.
  intros shares. eexists. split; [reflexivity|].
  destruct (X3_shares_encrypt_decrypt Reference.packages
              ReferenceFacts.round_trip shares Samples.password 0 2 _
              ltac:(repeat constructor; discriminate) eq_refl)
    as (Hlen & _ & Hback).
  split; [exact Hlen | exact (Hback 2)].
Defined.

(* ================================================================== *)
(** ** Further facts: the decoder, UTF-8, and text secrets *)

Module DecoderFacts.
Import Buffer BufferFacts.

Lemma len_utf16_of_code_point cp : 1 <= len (utf16_of_code_point cp) <= 2.
Proof. unfold utf16_of_code_point. destruct (cp <? 65536); cbn; lia. Qed.

Lemma len_lead b :
  match lead b with
  | (out, None) => len (flat_map utf16_of_code_point out) = 1
  | (out, Some _) => out = []
  end.
Proof.
  unfold lead, utf16_of_code_point.
  destruct (Z.leb_spec b 127).
  - cbn [flat_map app]. destruct (Z.ltb_spec b 65536); [reflexivity | lia].
  - destruct (between 194 223 b); [reflexivity|].
    destruct (between 224 239 b); [reflexivity|].
    destruct (between 240 244 b); reflexivity.
Qed.

(** Decoding never makes more units than there are bytes (one more while a
    sequence is open). *)
Lemma len_code_points bytes : forall st,
  len (flat_map utf16_of_code_point (code_points st bytes))
  <= len bytes + match st with None => 0 | Some _ => 1 end.
Proof.
  induction bytes as [|b bytes IH]; intros st.
  - destruct st; cbn; lia.
  - rewrite len_cons. cbn [code_points].
    assert (Hlead : len (flat_map utf16_of_code_point
                           (let (out, st') := lead b in
                            out ++ code_points st' bytes)) <= 1 + len bytes).
    { pose proof (len_lead b) as Hb. destruct (lead b) as [out [p|]];
        cbv beta iota in Hb |- *.
      - subst out. cbn [app]. specialize (IH (Some p)). cbv iota in IH. lia.
      - rewrite flat_map_app, len_app, Hb. specialize (IH None). cbv iota in IH. lia. }
    destruct st as [[cp needed lower upper]|]; [|lia].
    destruct (between lower upper b).
    + destruct (needed =? 1).
      * cbn [flat_map]. rewrite len_app.
        pose proof (len_utf16_of_code_point (cp * 64 + b mod 64)).
        specialize (IH None). cbv iota in IH. lia.
      * specialize (IH (Some (Pending (cp * 64 + b mod 64) (needed - 1) 128 191))).
        cbv iota in IH. lia.
    + destruct (lead b) as [out st'].
      change (65533 :: out ++ code_points st' bytes)
        with ([65533] ++ (out ++ code_points st' bytes)).
      rewrite flat_map_app, len_app. cbv beta iota in Hlead.
      change (len (flat_map utf16_of_code_point [65533])) with 1. lia.
Qed.

Lemma len_toString_utf8 bytes : len (toString_utf8 bytes) <= len bytes.
Proof.
  unfold toString_utf8. pose proof (len_code_points bytes None) as H.
  cbv iota in H. lia.
Qed.

Lemma len_from_hex s : 2 * len (from_hex s) <= len s.
Proof.
  assert (strong : forall n s, (List.length s <= n)%nat ->
                               2 * len (from_hex s) <= len s).
  { induction n as [|n IH]; intros [|hi [|lo s']] Hn; cbn [List.length] in Hn;
      cbn [from_hex]; unfold len in *; cbn [List.length]; try lia.
    destruct (hex_value hi), (hex_value lo); cbn [List.length]; try lia.
    specialize (IH s' ltac:(lia)). lia. }
  now apply (strong (List.length s)).
Qed.

Lemma len_strip_leading_zeros s : len (strip_leading_zeros s) <= len s.
Proof.
  induction s as [|c s IH]; [cbn; lia|].
  cbn [strip_leading_zeros]. rewrite len_cons.
  destruct (c =? 48); [lia | rewrite len_cons; lia].
Qed.

(** The decoder returns the digits left after the leading zeros (or "0"),
    or a text decoded from them, which is at most half as long. *)
Lemma len_hexToString hex :
  1 <= len (hexToString hex) <= Z.max 1 (len (strip_leading_zeros hex)).
Proof.
  unfold hexToString.
  set (cleanHex := or_else (strip_leading_zeros hex) (js "0")).
  assert (Hclean : 1 <= len cleanHex
                   /\ len cleanHex = Z.max 1 (len (strip_leading_zeros hex))).
  { subst cleanHex. destruct (strip_leading_zeros hex) as [|c r]; cbn [or_else].
    - cbn. lia.
    - rewrite len_cons. pose proof (len_nonneg r). lia. }
  set (decoded := toString_utf8 (from_hex cleanHex)).
  assert (Hdec : len decoded <= len cleanHex).
  { subst decoded. pose proof (len_toString_utf8 (from_hex cleanHex)).
    pose proof (len_from_hex cleanHex). pose proof (len_nonneg (from_hex cleanHex)).
    lia. }
  assert (Hmarked : startsWith decoded (js "encrypted:") = true -> 1 <= len decoded).
  { intros E. apply startsWith_inv in E. rewrite E, len_app.
    pose proof (len_nonneg (skipn (List.length (js "encrypted:")) decoded)).
    change (len (js "encrypted:")) with 10. lia. }
  assert (Hall : forall cls, test_all cls decoded = true -> 1 <= len decoded).
  { intros cls E. destruct decoded; [discriminate|]. rewrite len_cons.
    pose proof (len_nonneg decoded). lia. }
  destruct (_ && _); [lia|].
  destruct (startsWith decoded (js "encrypted:")) eqn:E1; [specialize (Hmarked eq_refl); lia|].
  destruct (test_all _ decoded) eqn:E2; cbn [andb].
  - apply Hall in E2. destruct (12 <=? _); [lia|].
    destruct (_ && _); lia.
  - destruct (Z.ltb_spec 0 (len decoded)); cbn [andb]; [|lia].
    destruct (test_some is_printable decoded); lia.
Qed.

End DecoderFacts.

Module UnicodeFacts.
Import Buffer BufferFacts.

Ltac divlia := Z.div_mod_to_equations; lia.

Lemma between_true lo hi c : lo <= c <= hi -> between lo hi c = true.
Proof. intros H. unfold between. apply andb_true_iff. split; apply Z.leb_le; lia. Qed.

Lemma between_false lo hi c : c < lo \/ hi < c -> between lo hi c = false.
Proof.
  intros H. unfold between. apply andb_false_iff.
  destruct H; [left | right]; apply Z.leb_gt; lia.
Qed.

Lemma lead_one b : 0 <= b <= 127 -> lead b = ([b], None).
Proof. intros H. unfold lead. destruct (Z.leb_spec b 127); [reflexivity | lia]. Qed.

Lemma lead_two b :
  194 <= b <= 223 -> lead b = ([], Some (Pending (b mod 32) 1 128 191)).
Proof.
  intros H. unfold lead. destruct (Z.leb_spec b 127); [lia|].
  now rewrite between_true by lia.
Qed.

Lemma lead_three b :
  224 <= b <= 239 ->
  lead b = ([], Some (Pending (b mod 16) 2
                        (if b =? 224 then 160 else 128)
                        (if b =? 237 then 159 else 191))).
Proof.
  intros H. unfold lead. destruct (Z.leb_spec b 127); [lia|].
  rewrite (between_false 194 223) by lia. now rewrite between_true by lia.
Qed.

Lemma lead_four b :
  240 <= b <= 244 ->
  lead b = ([], Some (Pending (b mod 8) 3
                        (if b =? 240 then 144 else 128)
                        (if b =? 244 then 143 else 191))).
Proof.
  intros H. unfold lead. destruct (Z.leb_spec b 127); [lia|].
  rewrite (between_false 194 223), (between_false 224 239) by lia.
  now rewrite between_true by lia.
Qed.

Lemma code_points_lead b rest :
  code_points None (b :: rest)
  = fst (lead b) ++ code_points (snd (lead b)) rest.
Proof. cbn [code_points]. now destruct (lead b). Qed.

Lemma continue_last cp lower upper b rest :
  lower <= b <= upper ->
  code_points (Some (Pending cp 1 lower upper)) (b :: rest)
  = (cp * 64 + b mod 64) :: code_points None rest.
Proof. intros H. cbn [code_points]. now rewrite between_true by lia. Qed.

Lemma continue_more cp needed lower upper b rest :
  lower <= b <= upper -> needed <> 1 ->
  code_points (Some (Pending cp needed lower upper)) (b :: rest)
  = code_points (Some (Pending (cp * 64 + b mod 64) (needed - 1) 128 191)) rest.
Proof.
  intros H Hn. cbn [code_points]. rewrite between_true by lia.
  destruct (Z.eqb_spec needed 1); [contradiction | reflexivity].
Qed.

Lemma code_points_two cp rest :
  128 <= cp < 2048 ->
  code_points None ([192 + cp / 64; 128 + cp mod 64] ++ rest)
  = cp :: code_points None rest.
Proof.
  intros H. cbn [app].
  rewrite code_points_lead, lead_two by divlia. cbn [app fst snd].
  rewrite continue_last by divlia. f_equal. divlia.
Qed.

Lemma code_points_three cp rest :
  2048 <= cp < 65536 -> cp < 55296 \/ 57344 <= cp ->
  code_points None
    ([224 + cp / 4096; 128 + (cp / 64) mod 64; 128 + cp mod 64] ++ rest)
  = cp :: code_points None rest.
Proof.
  intros H Hs. cbn [app].
  rewrite code_points_lead, lead_three by divlia. cbn [app fst snd].
  rewrite continue_more; [|
    destruct (Z.eqb_spec (224 + cp / 4096) 224),
             (Z.eqb_spec (224 + cp / 4096) 237); divlia | lia].
  rewrite continue_last by divlia. f_equal. divlia.
Qed.

Lemma code_points_four cp rest :
  65536 <= cp < 1114112 ->
  code_points None
    ([240 + cp / 262144; 128 + (cp / 4096) mod 64; 128 + (cp / 64) mod 64;
      128 + cp mod 64] ++ rest)
  = cp :: code_points None rest.
Proof.
  intros H. cbn [app].
  rewrite code_points_lead, lead_four by divlia. cbn [app fst snd].
  rewrite continue_more; [|
    destruct (Z.eqb_spec (240 + cp / 262144) 240),
             (Z.eqb_spec (240 + cp / 262144) 244); divlia | lia].
  rewrite continue_more by (divlia || lia).
  rewrite continue_last by divlia. f_equal. divlia.
Qed.

Lemma code_points_encoded cp rest :
  scalar cp ->
  code_points None (utf8_of_code_point cp ++ rest) = cp :: code_points None rest.
Proof.
  intros Hcp. unfold utf8_of_code_point, scalar in *.
  destruct (Z.ltb_spec cp 128); [|destruct (Z.ltb_spec cp 2048);
    [|destruct (Z.ltb_spec cp 65536)]].
  - cbn [app]. now rewrite code_points_lead, lead_one by lia.
  - apply code_points_two. lia.
  - apply code_points_three; lia.
  - apply code_points_four. lia.
Qed.

Lemma utf8_round_trip s :
  well_paired s = true -> toString_utf8 (from_utf8 s) = s.
Proof.
  unfold toString_utf8.
  assert (strong : forall n s, (List.length s <= n)%nat -> well_paired s = true ->
            flat_map utf16_of_code_point (code_points None (from_utf8 s)) = s).
  { induction n as [|n IH]; intros [|c s'] Hn Hwp; cbn [List.length] in Hn;
      try reflexivity; try lia.
    cbn [well_paired from_utf8] in *.
    destruct (is_high_surrogate c) eqn:Ehi.
    - destruct s' as [|d s'']; [discriminate|].
      apply andb_true_iff in Hwp as [Hlo Hwp]. rewrite Hlo.
      unfold is_high_surrogate, is_low_surrogate, between in Ehi, Hlo.
      apply andb_true_iff in Ehi as [E1 E2]. apply andb_true_iff in Hlo as [E3 E4].
      apply Z.leb_le in E1, E2, E3, E4.
      rewrite code_points_encoded by (unfold scalar; lia).
      cbn [flat_map]. rewrite IH by (cbn [List.length] in Hn; lia || assumption).
      unfold utf16_of_code_point.
      destruct (Z.ltb_spec (65536 + (c - 55296) * 1024 + (d - 56320)) 65536);
        [lia|].
      cbn [app]. f_equal; [divlia | f_equal; divlia].
    - apply andb_true_iff in Hwp as [Hc Hwp]. apply andb_true_iff in Hc as [Hlo Hc].
      apply negb_true_iff in Hlo. rewrite Hlo.
      unfold is_high_surrogate, is_low_surrogate, between in *.
      apply andb_true_iff in Hc as [E1 E2]. apply Z.leb_le in E1, E2.
      apply andb_false_iff in Ehi, Hlo.
      rewrite !Z.leb_gt in Ehi, Hlo.
      rewrite code_points_encoded by (unfold scalar; lia).
      cbn [flat_map]. rewrite IH by (lia || assumption).
      unfold utf16_of_code_point. destruct (Z.ltb_spec c 65536); [reflexivity | lia]. }
  intros H. now apply (strong (List.length s)).
Qed.

End UnicodeFacts.

Module TextFacts.
Import Buffer BufferFacts UnicodeFacts.

Lemma well_paired_well_formed s : well_paired s = true -> well_formed s.
Proof.
  assert (strong : forall n s, (List.length s <= n)%nat -> well_paired s = true ->
                               well_formed s).
  { induction n as [|n IH]; intros [|c s'] Hn Hwp; cbn [List.length] in Hn;
      try (constructor; fail); try lia.
    cbn [well_paired] in Hwp.
    destruct (is_high_surrogate c) eqn:Ehi.
    - destruct s' as [|d s'']; [discriminate|].
      apply andb_true_iff in Hwp as [Hlo Hwp].
      constructor; [zcases|]. constructor; [zcases|].
      apply IH; [cbn [List.length] in Hn; lia | assumption].
    - apply andb_true_iff in Hwp as [Hc Hwp]. apply andb_true_iff in Hc as [_ Hc].
      constructor; [zcases|]. apply IH; [lia | assumption]. }
  intros H. now apply (strong (List.length s)).
Qed.

(** The first byte of the UTF-8 of a string is at least 16 when its first
    unit is. *)
Lemma from_utf8_first c s :
  16 <= c -> exists b bytes, from_utf8 (c :: s) = b :: bytes /\ 16 <= b.
Proof.
  intros Hc. cbn [from_utf8].
  assert (Hcp : forall cp r, 16 <= cp ->
            exists b bytes, utf8_of_code_point cp ++ r = b :: bytes /\ 16 <= b).
  { intros cp r Hcp. unfold utf8_of_code_point.
    destruct (Z.ltb_spec cp 128); [|destruct (Z.ltb_spec cp 2048);
      [|destruct (Z.ltb_spec cp 65536)]]; cbn [app];
      eexists _, _; (split; [reflexivity|]); Z.div_mod_to_equations; lia. }
  assert (Hrep : forall r, exists b bytes,
            replacement_bytes ++ r = b :: bytes /\ 16 <= b).
  { intros r. eexists _, _. split; [reflexivity | lia]. }
  destruct (is_high_surrogate c) eqn:Ehi.
  - destruct s as [|d s]; [exact (Hrep [])|].
    destruct (is_low_surrogate d) eqn:Elo; [|apply Hrep].
    apply Hcp. zcases.
  - destruct (is_low_surrogate c); [apply Hrep | now apply Hcp].
Qed.

(** No digit is removed from the hex of bytes that begin with a byte of
    16 or more. *)
Lemma clean_hex_of_bytes b bytes :
  Forall byte (b :: bytes) -> 16 <= b ->
  or_else (strip_leading_zeros (toString_hex (b :: bytes))) (js "0")
  = toString_hex (b :: bytes).
Proof.
  intros Hbytes Hb. cbn [toString_hex strip_leading_zeros].
  assert (hex_digit (b / 16) <> 48).
  { inversion Hbytes; subst. unfold hex_digit.
    assert (1 <= b / 16) by (apply Z.div_le_lower_bound; lia).
    destruct (Z.ltb_spec (b / 16) 10); lia. }
  destruct (Z.eqb_spec (hex_digit (b / 16)) 48); [contradiction | reflexivity].
Qed.

(** The decoder on the hex of a byte sequence that does not begin with a
    byte below 16 and is not 32 bytes long: the UTF-8 reading of the bytes
    when it passes one of the three text tests, the hex otherwise. *)
Lemma hexToString_bytes b bytes :
  Forall byte (b :: bytes) -> 16 <= b -> len (b :: bytes) <> 32 ->
  hexToString (toString_hex (b :: bytes))
  = let decoded := toString_utf8 (b :: bytes) in
    if startsWith decoded (js "encrypted:") then decoded
    else if test_all (fun c => is_lower c || is_space c) decoded
            && (12 <=? len (split 32 decoded)) then decoded
    else if (0 <? len decoded) && test_some is_printable decoded then decoded
    else toString_hex (b :: bytes).
Proof.
  intros Hbytes Hb Hlen. unfold hexToString.
  rewrite (clean_hex_of_bytes _ _ Hbytes Hb), len_toString_hex.
  destruct (Z.eqb_spec (2 * len (b :: bytes)) 64) as [E|_]; [lia|].
  cbn [andb]. now rewrite (from_hex_toString_hex _ Hbytes).
Qed.

(** The same hex when the sequence is 32 bytes long: it is taken for a
    key. *)
Lemma hexToString_32_bytes b bytes :
  Forall byte (b :: bytes) -> 16 <= b -> len (b :: bytes) = 32 ->
  hexToString (toString_hex (b :: bytes)) = toString_hex (b :: bytes).
Proof.
  intros Hbytes Hb Hlen.
  pose proof (clean_hex_of_bytes _ _ Hbytes Hb) as Hclean.
  rewrite <- Hclean at 2. apply CodecFacts.hexToString_raw_key; cbv zeta;
    rewrite Hclean.
  - rewrite len_toString_hex. lia.
  - now apply toString_hex_is_hex.
Qed.

(** A printable unit makes each of the decoder's three text tests moot: the
    text is returned. *)
Lemma text_tests_printable (decoded hex : jsstring) :
  test_some is_printable decoded = true ->
  (if startsWith decoded (js "encrypted:") then decoded
   else if test_all (fun c => is_lower c || is_space c) decoded
           && (12 <=? len (split 32 decoded)) then decoded
   else if (0 <? len decoded) && test_some is_printable decoded then decoded
   else hex) = decoded.
Proof.
  intros Hp. destruct (startsWith decoded (js "encrypted:")); [reflexivity|].
  destruct (_ && _); [reflexivity|]. rewrite Hp.
  destruct decoded as [|c r]; [discriminate|]. rewrite len_cons.
  pose proof (len_nonneg r). destruct (Z.ltb_spec 0 (1 + len r)); [reflexivity | lia].
Qed.

(** Without a printable unit none of the three tests passes: the hex is
    returned. *)
Lemma text_tests_unprintable (decoded hex : jsstring) :
  test_some is_printable decoded = false ->
  (if startsWith decoded (js "encrypted:") then decoded
   else if test_all (fun c => is_lower c || is_space c) decoded
           && (12 <=? len (split 32 decoded)) then decoded
   else if (0 <? len decoded) && test_some is_printable decoded then decoded
   else hex) = hex.
Proof.
  intros Hp. unfold test_some in *.
  assert (Hnone : forall c, In c decoded -> is_printable c = false).
  { intros c Hc. destruct (is_printable c) eqn:E; [|reflexivity].
    assert (existsb is_printable decoded = true)
      by (apply existsb_exists; eauto). congruence. }
  destruct (startsWith decoded (js "encrypted:")) eqn:E1.
  { apply startsWith_inv in E1.
    assert (Hin : In 101 decoded) by (rewrite E1; cbn; tauto).
    specialize (Hnone 101 Hin). discriminate. }
  destruct (12 <=? len (split 32 decoded)) eqn:E2.
  { destruct (in_dec Z.eq_dec 32 decoded) as [Hin|Hnot].
    - specialize (Hnone 32 Hin). discriminate.
    - rewrite (CodecFacts.split_one 32 decoded Hnot) in E2. discriminate. }
  rewrite andb_false_r, Hp, andb_false_r. reflexivity.
Qed.

End TextFacts.

Module TextRestore.
Import Buffer BufferFacts UnicodeFacts TextFacts.

Lemma plain_text_shape s :
  plain_text s = true ->
  well_paired s = true
  /\ stringToHex s = toString_hex (from_utf8 s)
  /\ Forall byte (from_utf8 s)
  /\ exists b bytes, from_utf8 s = b :: bytes /\ 16 <= b.
Proof.
  unfold plain_text. intros H.
  apply andb_true_iff in H as [H Hfirst]. apply andb_true_iff in H as [Hwp Hhex].
  apply negb_true_iff in Hhex.
  split; [exact Hwp|]. split; [unfold stringToHex; now rewrite Hhex|].
  split; [apply from_utf8_bytes; now apply well_paired_well_formed|].
  destruct s as [|c s]; [discriminate|]. apply from_utf8_first.
  now apply Z.leb_le.
Qed.

(** What restoring returns for a text secret split without password. *)
Lemma restore_text (L : Libraries) :
  share_accepts L -> share_returns_n L -> combine_recovers L ->
  forall (secret : jsstring) (n t : Z) (w : World),
    plain_text secret = true -> 2 <= t <= n -> n <= 255 ->
    exists shares w',
      createShares secret n t None w = (Ok shares, w')
      /\ len shares = n
      /\ forall idx w2,
           choice idx shares -> len idx = t ->
           fst (restoreSecret (pick idx shares) None w2)
           = Ok (hexToString (toString_hex (from_utf8 secret))).
Proof.
  intros Hacc Hret Hrec secret n t w Htext Ht Hn.
  destruct (plain_text_shape _ Htext) as (_ & Hhex & Hbytes & _).
  destruct (restore_after_create L Hacc Hret Hrec secret n t w) as
    (shares & w' & E & Hlen & Hback); try assumption.
  { rewrite Hhex. now apply toString_hex_is_hex. }
  exists shares, w'. split; [exact E|]. split; [exact Hlen|].
  intros idx w2 Hidx Hcount. rewrite (Hback idx w2 Hidx Hcount), Hhex.
  now rewrite toString_hex_lower.
Qed.

Lemma hex_is_not_text s bytes :
  test_all is_hex_digit s = false -> Forall byte bytes -> bytes <> [] ->
  toString_hex bytes <> s.
Proof.
  intros Hs Hbytes Hne E. subst s.
  destruct bytes as [|b bytes]; [congruence|].
  pose proof (toString_hex_is_hex _ Hbytes) as Hhex.
  cbn [toString_hex] in *. unfold test_all in Hs. congruence.
Qed.

End TextRestore.
Import Buffer BufferFacts UnicodeFacts TextFacts TextRestore.

(** A zero digit in front costs the decoder at least one unit. *)
Lemma leading_zero_shortens rest :
  rest <> [] -> len (hexToString (48 :: rest)) < len (48 :: rest).
Proof.
  intros Hrest.
  pose proof (DecoderFacts.len_hexToString (48 :: rest)) as [_ Hb].
  cbn [strip_leading_zeros] in Hb. change (48 =? 48) with true in Hb.
  cbn match in Hb.
  pose proof (DecoderFacts.len_strip_leading_zeros rest).
  rewrite len_cons. destruct rest as [|c rest]; [congruence|].
  rewrite len_cons in *. pose proof (len_nonneg rest). lia.
Qed.

(* ================================================================== *)
(** ** Further facts: the commands *)

Import ShareFiles Commands.

Module CommandFacts.

Lemma trimStart_id c s : is_space c = false -> trimStart (c :: s) = c :: s.
Proof. intros H. cbn [trimStart]. now rewrite H. Qed.

Lemma trimStart_nonempty s c :
  In c s -> is_space c = false -> trimStart s <> [].
Proof.
  induction s as [|d s IH]; intros Hin Hc; [contradiction|].
  cbn [trimStart]. destruct (is_space d) eqn:E; [|discriminate].
  destruct Hin as [->|Hin]; [congruence | now apply IH].
Qed.

Lemma trim_nonempty s c : In c s -> is_space c = false -> trim s <> [].
Proof.
  intros Hin Hc. unfold trim, trimEnd.
  assert (Hstart : In c (trimStart s)).
  { clear - Hin Hc. induction s as [|d s IH]; [contradiction|].
    cbn [trimStart]. destruct (is_space d) eqn:E; [|exact Hin].
    destruct Hin as [->|Hin]; [congruence | now apply IH]. }
  intros E. apply (f_equal (@rev Z)) in E. rewrite rev_involutive in E.
  cbn in E. revert E. apply (trimStart_nonempty _ c); [|exact Hc].
  now apply in_rev in Hstart.
Qed.

Lemma split_app_sep sep x r :
  ~ In sep x -> split sep (x ++ sep :: r) = x :: split sep r.
Proof.
  induction x as [|c x IH]; intros Hnot.
  - cbn [app split]. now rewrite Z.eqb_refl.
  - cbn [app split]. destruct (Z.eqb_spec c sep) as [->|_].
    + exfalso. apply Hnot. now left.
    + rewrite IH; [reflexivity|]. intros Hin. apply Hnot. now right.
Qed.

(** Splitting undoes joining when no line holds the separator. *)
Lemma split_join sep lines :
  lines <> [] -> Forall (fun line => ~ In sep line) lines ->
  split sep (join [sep] lines) = lines.
Proof.
  intros Hne H. induction H as [|x l Hx Hl IH]; [congruence|].
  destruct l as [|y l].
  - cbn [join]. now apply CodecFacts.split_one.
  - change (join [sep] (x :: y :: l)) with (x ++ sep :: join [sep] (y :: l)).
    rewrite split_app_sep by assumption. f_equal. apply IH. discriminate.
Qed.

Lemma units_of_uint_digits d : forallb is_digit (units_of_uint d) = true.
Proof. induction d; cbn [units_of_uint forallb]; rewrite ?IHd; reflexivity. Qed.

Lemma units_of_uint_inj d d' : units_of_uint d = units_of_uint d' -> d = d'.
Proof.
  revert d'. induction d; intros d' E; destruct d'; cbn [units_of_uint] in E;
    try discriminate; try reflexivity; injection E as E; f_equal; now apply IHd.
Qed.

(** The numeral of a positive integer: one digit or more, digits only. *)
Lemma decimal_positive n :
  0 < n -> exists d ds, decimal n = d :: ds /\ forallb is_digit (d :: ds) = true.
Proof.
  intros Hn. destruct n as [|p|p]; try lia. cbn [decimal].
  pose proof (units_of_uint_digits (Pos.to_uint p)) as Hd.
  destruct (units_of_uint (Pos.to_uint p)) as [|d ds] eqn:E; [|eauto].
  exfalso. apply (Unsigned.to_uint_nonnil p).
  apply units_of_uint_inj. now rewrite E.
Qed.

Lemma skip_digits_app ds rest :
  forallb is_digit ds = true ->
  skip_digits (ds ++ 58 :: rest) = 58 :: rest.
Proof.
  induction ds as [|d ds IH]; intros H; [reflexivity|].
  cbn [forallb] in H. apply andb_true_iff in H as [Hd Hds].
  cbn [app skip_digits]. rewrite Hd. now apply IH.
Qed.

(** A labelled line: kept by the filter, and read back as the share. *)
Lemma labelled_line index share :
  0 <= index -> trim share = share ->
  let line := js "Share " ++ decimal (index + 1) ++ js ": " ++ share in
  (0 <? len (trim line)) && startsWith line (js "Share ") = true
  /\ trim (removeLabel line) = share.
Proof.
  intros Hindex Htrim line. split.
  - assert (Hne : trim line <> [])
      by (apply (trim_nonempty _ 83); [now left | reflexivity]).
    assert (Hlen : (0 <? len (trim line)) = true).
    { destruct (trim line) as [|c r]; [congruence|]. rewrite len_cons.
      pose proof (len_nonneg r).
      destruct (Z.ltb_spec 0 (1 + len r)); [reflexivity | lia]. }
    rewrite Hlen. subst line. now rewrite startsWith_app.
  - unfold removeLabel. subst line. rewrite startsWith_app.
    change (substring 6 (js "Share " ++ decimal (index + 1) ++ js ": " ++ share))
      with (decimal (index + 1) ++ js ": " ++ share).
    destruct (decimal_positive (index + 1)) as (d & ds & -> & Hd); [lia|].
    cbn [forallb] in Hd. apply andb_true_iff in Hd as [Hd Hds].
    cbn [app]. rewrite Hd.
    change (ds ++ js ": " ++ share) with (ds ++ 58 :: 32 :: share).
    rewrite (skip_digits_app _ _ Hds). cbn. exact Htrim.
Qed.

Lemma label_has_no_newline index share :
  0 <= index -> ~ In 10 share ->
  ~ In 10 (js "Share " ++ decimal (index + 1) ++ js ": " ++ share).
Proof.
  intros Hindex Hshare Hin.
  destruct (decimal_positive (index + 1)) as (d & ds & E & Hd); [lia|].
  rewrite E in Hin. rewrite forallb_forall in Hd.
  apply in_app_or in Hin as [Hin | Hin];
    [cbn in Hin; repeat (destruct Hin as [Hin|Hin]; [discriminate|]); exact Hin|].
  apply in_app_or in Hin as [Hin | Hin]; [specialize (Hd 10 Hin); discriminate|].
  apply in_app_or in Hin as [Hin | Hin];
    [cbn in Hin; repeat (destruct Hin as [Hin|Hin]; [discriminate|]); exact Hin|].
  contradiction.
Qed.

(** The labelled lines of a share list are read back as the list. *)
Lemma labelled_lines_read index shares :
  0 <= index ->
  Forall (fun share => ~ In 10 share /\ trim share = share) shares ->
  Forall (fun line => ~ In 10 line) (label_from index shares)
  /\ map (fun line => trim (removeLabel line))
       (filter (fun line => (0 <? len (trim line)) && startsWith line (js "Share "))
          (label_from index shares))
     = shares.
Proof.
  intros Hindex H. revert index Hindex.
  induction H as [|share shares [Hnl Htrim] _ IH]; intros index Hindex.
  - split; [constructor | reflexivity].
  - destruct (IH (index + 1) ltac:(lia)) as [IHnl IHread].
    destruct (labelled_line index share Hindex Htrim) as [Hkeep Hread].
    cbn [label_from]. split.
    + constructor; [now apply label_has_no_newline | exact IHnl].
    + cbn [filter]. cbv zeta in Hkeep. rewrite Hkeep. cbn [map].
      cbv zeta in Hread. rewrite Hread, IHread. reflexivity.
Qed.

End CommandFacts.

Module CliFacts.
Import CommandFacts.

Lemma trimStart_word s :
  forallb (fun c => negb (is_space c)) s = true -> trimStart s = s.
Proof.
  destruct s as [|c s]; [reflexivity|]. cbn [forallb trimStart].
  intros H. apply andb_true_iff in H as [Hc _].
  apply negb_true_iff in Hc. now rewrite Hc.
Qed.

(** A word is its own trimming and holds no line feed. *)
Lemma word_is_trimmed s :
  forallb (fun c => negb (is_space c)) s = true ->
  ~ In 10 s /\ trim s = s.
Proof.
  intros H. split.
  - intros Hin. rewrite forallb_forall in H. specialize (H 10 Hin). discriminate.
  - unfold trim, trimEnd. rewrite (trimStart_word _ H).
    rewrite trimStart_word; [apply rev_involutive|].
    rewrite forallb_forall in *. intros c Hc. apply H. now apply in_rev.
Qed.

Lemma pick_all (l : list jsstring) : pick (seq 0 (List.length l)) l = l.
Proof.
  unfold pick.
  assert (gen : forall pre l0 : list jsstring,
            map (fun i => nth i (pre ++ l0) [])
              (seq (List.length pre) (List.length l0)) = l0).
  { intros pre l0. revert pre. induction l0 as [|x l0 IH]; intros pre; [reflexivity|].
    cbn [List.length seq map]. f_equal.
    - rewrite app_nth2 by lia. now rewrite Nat.sub_diag.
    - specialize (IH (pre ++ [x])). rewrite <- app_assoc in IH. cbn [app] in IH.
      rewrite length_app in IH. cbn [List.length] in IH.
      now rewrite Nat.add_1_r in IH. }
  exact (gen [] l).
Qed.

Lemma choice_all (l : list jsstring) : choice (seq 0 (List.length l)) l.
Proof.
  split; [apply seq_NoDup|]. apply Forall_forall. intros i Hi.
  apply in_seq in Hi. lia.
Qed.

Lemma len_seq_all (l : list jsstring) : len (seq 0 (List.length l)) = len l.
Proof. unfold len. now rewrite length_seq. Qed.

(** Comparisons decided one at a time. *)
Ltac zdecide :=
  unfold between;
  repeat match goal with
         | |- context [?a <=? ?b] => destruct (Z.leb_spec a b); try lia
         | |- context [?a <? ?b] => destruct (Z.ltb_spec a b); try lia
         | |- context [?a =? ?b] => destruct (Z.eqb_spec a b); try lia
         end;
  cbn [andb orb negb]; try reflexivity.

Lemma not_space x : 33 <= x < 160 -> is_space x = false.
Proof. intros H. unfold is_space. zdecide. Qed.

Lemma base64_range x : is_base64 x = true -> 43 <= x <= 122.
Proof. intros H. zcases. Qed.

(** A marked base64 token is a word. *)
Lemma marked_token_is_word c :
  forallb is_base64 c = true ->
  forallb (fun c => negb (is_space c)) (marker ++ c) = true.
Proof.
  intros H. rewrite forallb_app. apply andb_true_iff. split; [reflexivity|].
  rewrite forallb_forall in *. intros x Hx. specialize (H x Hx).
  apply base64_range in H. rewrite not_space by lia. reflexivity.
Qed.

End CliFacts.

Module CliRun.
Import CommandFacts CliFacts.

(** The shares read from the share file are the shares written. *)
Lemma share_file_read (written : list jsstring) :
  Forall (fun share => ~ In 10 share /\ trim share = share) written ->
  sharesFromFile (sharesFileContent written) = written.
Proof.
  intros H. unfold sharesFromFile, sharesFileContent.
  destruct (labelled_lines_read 0 written ltac:(lia) H) as [Hnl Hread].
  destruct written as [|share written]; [reflexivity|].
  rewrite split_join; [exact Hread | discriminate | exact Hnl].
Qed.

(** The shares read from the file of [generate] are the shares written:
    the lines of the header are passed over. *)
Lemma generated_file_read date address mnemonic totalShares threshold written :
  ~ In 10 date -> ~ In 10 address -> ~ In 10 mnemonic ->
  Forall (fun share => ~ In 10 share /\ trim share = share) written ->
  sharesFromFile
    (generatedFileContent date address mnemonic totalShares threshold written)
  = written.
Proof.
  intros Hdate Haddress Hmnemonic H.
  unfold sharesFromFile, generatedFileContent.
  destruct (labelled_lines_read 0 written ltac:(lia) H) as [Hnl Hread].
  assert (Hdec : forall k, ~ In 10 (decimal k)).
  { intros k Hin. destruct k as [|p|p]; cbn [decimal] in Hin.
    - cbn in Hin. intuition discriminate.
    - pose proof (units_of_uint_digits (Pos.to_uint p)) as Hd.
      rewrite forallb_forall in Hd. specialize (Hd 10 Hin). discriminate.
    - destruct Hin as [Hin|Hin]; [discriminate|].
      pose proof (units_of_uint_digits (Pos.to_uint p)) as Hd.
      rewrite forallb_forall in Hd. specialize (Hd 10 Hin). discriminate. }
  assert (Hlit : forall (lit rest : jsstring),
             forallb (fun c => negb (c =? 10)) lit = true -> ~ In 10 rest ->
             ~ In 10 (lit ++ rest)).
  { intros lit rest Hl Hr Hin. apply in_app_or in Hin as [Hin|Hin]; [|contradiction].
    rewrite forallb_forall in Hl. specialize (Hl 10 Hin). discriminate. }
  rewrite split_join.
  - rewrite filter_app.
    match goal with
    | |- context [filter ?keep (?l1 :: ?l2 :: ?l3 :: ?l4 :: ?l5 :: ?l6 :: nil)] =>
        assert (Hhead : filter keep [l1; l2; l3; l4; l5; l6] = [])
    end.
    { cbn [filter app js list_ascii_of_string map startsWith].
      change (35 =? 83) with false. cbn [andb].
      rewrite !andb_false_r. reflexivity. }
    rewrite Hhead. exact Hread.
  - discriminate.
  - apply Forall_app. split; [|exact Hnl].
    repeat constructor.
    + cbn. intuition discriminate.
    + apply Hlit; [reflexivity | assumption].
    + apply Hlit; [reflexivity | assumption].
    + apply Hlit; [reflexivity | assumption].
    + intros [].
    + apply Hlit; [reflexivity|]. intros Hin.
      apply in_app_or in Hin as [Hin|Hin]; [now apply (Hdec totalShares) in Hin|].
      revert Hin. apply Hlit; [reflexivity|]. intros Hin.
      apply in_app_or in Hin as [Hin|Hin]; [now apply (Hdec threshold) in Hin|].
      cbn in Hin. intuition discriminate.
Qed.

Section WithLibraries.
Context {L : Libraries}.

(** Past the loading and the length check, [restoreKey] is decided by what
    [restoreSecret] returns. *)
Lemma restoreKey_outcome options disk answer loaded w :
  loadShares options disk answer = Ok loaded -> 2 <= len loaded ->
  restoreKey options disk answer w
  = match restoreSecret loaded (password options) w with
    | (Ok secret, w') =>
        if isMnemonic secret || isPrivateKey secret then (Ok secret, w')
        else (Err (js "Failed to restore secret: Restored secret is neither a valid mnemonic nor a valid private key"), w')
    | (Err message, w') => (Err (js "Failed to restore secret: " ++ message), w')
    end.
Proof.
  intros Hload Hlen. unfold restoreKey. unfold bind at 1. unfold lift.
  rewrite Hload. destruct (Z.ltb_spec (len loaded) 2); [lia|].
  unfold try_catch, bind, ret, throw.
  destruct (restoreSecret loaded (password options) w) as [[secret|m] w'];
    [|reflexivity].
  destruct (isMnemonic secret); [reflexivity|].
  destruct (isPrivateKey secret); reflexivity.
Qed.

Lemma validateShares_outcome options disk answer loaded w :
  loadShares options disk answer = Ok loaded -> 2 <= len loaded ->
  validateShares options disk answer w
  = match restoreSecret loaded (password options) w with
    | (Ok secret, w') =>
        if isMnemonic secret then (Ok Mnemonic, w')
        else if isPrivateKey secret then (Ok PrivateKey, w')
        else (Err (js "Shares contain invalid data - neither mnemonic nor private key format"), w')
    | (Err message, w') => (Err message, w')
    end.
Proof.
  intros Hload Hlen. unfold validateShares. unfold bind at 1. unfold lift.
  rewrite Hload. destruct (Z.ltb_spec (len loaded) 2); [lia|].
  unfold try_catch, bind, ret, throw.
  destruct (restoreSecret loaded (password options) w) as [[secret|m] w'];
    [|reflexivity].
  destruct (isMnemonic secret); [reflexivity|].
  destruct (isPrivateKey secret); reflexivity.
Qed.

(** Restoring from all the shares of a split without password. *)
Lemma restore_all_plain secret n t w shares w' w2 :
  combine_recovers L -> share_returns_n L ->
  secrets_share (stringToHex secret) n t w = (Ok shares, w') -> 2 <= t <= n ->
  fst (restoreSecret shares None w2)
  = Ok (hexToString (map lower_hex (stringToHex secret))).
Proof.
  intros Hrec Hret E Ht.
  destruct (Hret _ _ _ _ _ _ E) as [Hn _].
  apply restore_plain; [lia | reflexivity|].
  rewrite <- (pick_all shares) at 1.
  apply (Hrec _ _ _ _ _ _ E); [apply choice_all | rewrite len_seq_all; lia].
Qed.

(** Restoring, with its password, from all the shares of a protected
    split. *)
Lemma restore_all_protected secret pw n t w w' shares w2 :
  share_returns_n L -> combine_recovers L ->
  AES_round_trip L -> AES_prints_base64 L ->
  secret <> [] -> pw <> [] ->
  createShares secret n t (Some pw) w = (Ok shares, w') ->
  2 <= len shares
  /\ Forall (fun share => forallb (fun c => negb (is_space c)) share = true) shares
  /\ fst (restoreSecret shares (Some pw) w2) = Ok secret.
Proof.
  intros Hret Hrec Hrt Hb64 Hsecret Hpw Hcreate.
  pose proof (createShares_ok_counts _ _ _ _ _ _ _ Hcreate) as Hcounts.
  destruct (createShares_protected _ _ _ _ _ _ _ Hpw Hcreate)
    as (c & w1 & plain & w3 & Hc & Hsplit & Henc).
  pose proof (encryptShares_spec _ _ _ _ _ Hrt Henc) as Hpairs.
  pose proof (encryptShares_origin _ _ _ _ _ Henc) as Horigin.
  destruct (Hret _ _ _ _ _ _ Hsplit) as [Hn Hne].
  pose proof (Forall2_length_eq _ _ Hpairs) as Hsame.
  assert (Hlong : 2 <= len shares) by (unfold len in *; lia).
  split; [exact Hlong|]. split.
  { clear - Horigin Hb64. induction Horigin as [|p e ps es (ci & wa & wb & -> & Hci) _ IH];
      constructor; [|exact IH].
    apply marked_token_is_word. exact (proj1 (Hb64 _ _ _ _ _ Hci)). }
  rewrite <- (pick_all shares) at 1.
  rewrite (restore_own_protected _ _ _ _ _ _ _ _ _
             Hret Hrec Hrt Hb64 Hpw Hcreate (choice_all shares))
    by (rewrite len_seq_all; unfold len in *; lia).
  destruct secret; [congruence | reflexivity].
Qed.

End WithLibraries.
End CliRun.
Import CommandFacts CliFacts CliRun.

Module AnswerFacts.

Lemma join_comma_space (shares : list jsstring) :
  join (js ", ") shares
  = join [44] match shares with
              | [] => []
              | share :: others => share :: map (cons 32) others
              end.
Proof.
  destruct shares as [|share others]; [reflexivity|].
  revert share. induction others as [|other others IH]; intros share; [reflexivity|].
  change (join (js ", ") (share :: other :: others))
    with (share ++ js ", " ++ join (js ", ") (other :: others)).
  rewrite IH. cbn [map].
  change (join [44] (share :: (32 :: other) :: map (cons 32) others))
    with (share ++ [44] ++ join [44] ((32 :: other) :: map (cons 32) others)).
  f_equal. cbn [js list_ascii_of_string map app]. f_equal.
  destruct others; reflexivity.
Qed.

Lemma answer_pieces (pieces shares : list jsstring) :
  Forall2 (fun piece share => trim piece = share /\ share <> []) pieces shares ->
  filter (fun s => 0 <? len s) (map trim pieces) = shares.
Proof.
  induction 1 as [|piece share pieces shares [E Hne] _ IH]; [reflexivity|].
  cbn [map filter]. rewrite E, IH.
  destruct share; [congruence|]. rewrite len_cons.
  pose proof (len_nonneg share). destruct (Z.ltb_spec 0 (1 + len share)); [reflexivity | lia].
Qed.

End AnswerFacts.

Module KeyFacts.

Lemma accepted_key_is_hex key typed r :
  checkPrivateKey key typed = Ok r -> hex_key r = true.
Proof.
  unfold checkPrivateKey. cbv zeta. intros H.
  destruct (match match given key with Some k => k | None => typed end with
            | [] => _ | _ :: _ => _ end) as [|p0 p]; [discriminate|].
  destruct (Z.eqb_spec (len (p0 :: p)) 64) as [Hlen|]; cbn [negb] in H;
    [|discriminate].
  destruct (test_all is_hex_digit (p0 :: p)) eqn:Ehex; cbn [negb] in H;
    [|discriminate].
  injection H as <-. unfold hex_key. rewrite Hlen. exact Ehex.
Qed.

Lemma hex_key_is_private_key r : hex_key r = true -> isPrivateKey r = true.
Proof.
  unfold hex_key, isPrivateKey. intros H. apply andb_true_iff in H as [Hlen Hhex].
  destruct r; [discriminate|]. unfold test_all. now rewrite Hhex, Hlen.
Qed.

Lemma hex_key_canonical r : hex_key r = true -> stringToHex r = r.
Proof.
  unfold hex_key. intros H. apply andb_true_iff in H as [Hlen Hhex].
  apply Z.eqb_eq in Hlen. unfold stringToHex. destruct r as [|r0 r]; [discriminate|].
  unfold test_all. rewrite Hhex, Hlen. reflexivity.
Qed.

(** In lower case, a key that does not begin with 0 is a plain key. *)
Lemma lower_key r :
  hex_key r = true -> startsWith r (js "0") = false ->
  plain_key (map lower_hex r) = true.
Proof.
  unfold hex_key, plain_key. intros H Hzero.
  apply andb_true_iff in H as [Hlen Hhex].
  assert (Hl : len (map lower_hex r) = len r) by (unfold len; now rewrite length_map).
  rewrite Hl, Hlen. cbn [andb]. apply andb_true_iff. split.
  - clear Hlen Hzero Hl. induction r as [|c r IH]; [reflexivity|].
    cbn [map forallb] in *. apply andb_true_iff in Hhex as [Hd Hhex].
    rewrite (IH Hhex), andb_true_r. unfold lower_hex. unfold is_hex_digit in Hd.
    zcases.
  - destruct r as [|c r]; [reflexivity|]. cbn [map].
    change (js "0") with [48] in *. cbn [startsWith] in *.
    destruct (Z.eqb_spec c 48) as [->|Hc]; [now destruct r|].
    unfold lower_hex. apply andb_true_iff in Hhex as [Hd _].
    unfold is_hex_digit in Hd.
    assert (Hn : ((if between 65 70 c then c + 32 else c) =? 48) = false) by zcases.
    rewrite Hn. reflexivity.
Qed.

End KeyFacts.

(* ================================================================== *)
(** ** Further facts: the PDF file names *)

Import PDF.

Module PDFFacts.

Lemma hyphenate_spaces inside s :
  forallb plain_unit (hyphenate is_space inside (removeSpecial s)) = true.
Proof.
  unfold removeSpecial. revert inside.
  induction s as [|c s IH]; intros inside; [reflexivity|].
  cbn [filter].
  destruct (is_lower c || is_digit c || is_space c || (c =? 45)) eqn:E; [|apply IH].
  cbn [hyphenate]. destruct (is_space c) eqn:Es.
  - destruct inside; [apply IH|]. cbn [forallb]. now rewrite IH.
  - cbn [forallb]. rewrite IH, andb_true_r. unfold plain_unit.
    rewrite orb_false_r in E. exact E.
Qed.

Lemma hyphenate_hyphens inside s :
  forallb plain_unit s = true ->
  forallb plain_unit (hyphenate (fun c => c =? 45) inside s) = true
  /\ single inside (hyphenate (fun c => c =? 45) inside s) = true.
Proof.
  revert inside. induction s as [|c s IH]; intros inside H; [now split|].
  cbn [forallb] in H. apply andb_true_iff in H as [Hc Hs].
  cbn [hyphenate]. destruct (c =? 45) eqn:E.
  - destruct (IH true Hs) as [H1 H2]. destruct inside; [now split|].
    cbn [forallb single]. change (45 =? 45) with true. cbn [negb andb].
    now rewrite H1, H2.
  - destruct (IH false Hs) as [H1 H2]. cbn [forallb single].
    now rewrite E, Hc, H1, H2.
Qed.

Lemma single_weaken s : single true s = true -> single false s = true.
Proof.
  destruct s as [|c s]; [reflexivity|]. cbn [single].
  destruct (c =? 45); [discriminate | auto].
Qed.

Lemma single_app_l a : forall prev b,
  single prev (a ++ b) = true -> single prev a = true.
Proof.
  induction a as [|c a IH]; intros prev b H; [reflexivity|].
  cbn [app single] in *. destruct (c =? 45).
  - apply andb_true_iff in H as [Hp H]. rewrite Hp. cbn [andb]. now apply IH in H.
  - now apply IH in H.
Qed.

Lemma single_no_double a : forall prev b,
  single prev (a ++ 45 :: 45 :: b) = false.
Proof.
  induction a as [|c a IH]; intros prev b.
  - cbn [app single]. change (45 =? 45) with true. cbn [negb andb].
    apply andb_false_r.
  - cbn [app single]. destruct (c =? 45); [|apply IH].
    rewrite IH. apply andb_false_r.
Qed.

Lemma stripHyphens_shape s :
  forallb plain_unit s = true -> single false s = true ->
  let name := stripHyphens s in
  forallb plain_unit name = true /\ single false name = true
  /\ (forall rest, name <> 45 :: rest) /\ (forall front, name <> front ++ [45]).
Proof.
  intros Hs Hsingle. unfold stripHyphens.
  set (s1 := match s with c :: r => if c =? 45 then r else s | [] => s end).
  assert (H1 : forallb plain_unit s1 = true /\ single false s1 = true
                 /\ forall rest, s1 <> 45 :: rest).
  { subst s1. destruct s as [|c r]; [repeat split; discriminate|].
    destruct (Z.eqb_spec c 45) as [->|Hc].
    - cbn [forallb single] in Hs, Hsingle. change (45 =? 45) with true in Hsingle.
      cbn [negb andb] in Hsingle. apply andb_true_iff in Hs as [_ Hs].
      split; [exact Hs|]. split; [now apply single_weaken|].
      intros rest ->. cbn [single] in Hsingle. change (45 =? 45) with true in Hsingle.
      discriminate.
    - split; [exact Hs|]. split; [exact Hsingle|]. intros rest E. congruence. }
  clearbody s1. destruct H1 as (Hok & Hone & Hhead). cbv zeta.
  destruct (rev s1) as [|c r] eqn:Er.
  - apply (f_equal (@rev Z)) in Er. rewrite rev_involutive in Er. subst s1.
    repeat split; try assumption. intros front E. now destruct front.
  - apply (f_equal (@rev Z)) in Er. rewrite rev_involutive in Er. cbn [rev] in Er.
    destruct (Z.eqb_spec c 45) as [->|Hc].
    + subst s1. rewrite forallb_app in Hok. apply andb_true_iff in Hok as [Hok _].
      split; [exact Hok|]. split; [now apply single_app_l in Hone|]. split.
      * intros rest E. rewrite E in Hhead. now apply (Hhead (rest ++ [45])).
      * intros front E. rewrite E, <- app_assoc in Hone.
        cbn [app] in Hone. now rewrite single_no_double in Hone.
    + repeat split; try assumption. intros front E. rewrite E in Er.
      apply app_inj_tail in Er as [_ Er]. congruence.
Qed.

Lemma baseName_shape lowered :
  let name := baseName lowered in
  name <> [] /\ forallb plain_unit name = true /\ single false name = true
  /\ (forall rest, name <> 45 :: rest) /\ (forall front, name <> front ++ [45]).
Proof.
  assert (Hdefault :
            let name := js "eth-share" in
            name <> [] /\ forallb plain_unit name = true /\ single false name = true
            /\ (forall rest, name <> 45 :: rest)
            /\ (forall front, name <> front ++ [45])).
  { cbv zeta. split; [discriminate|]. split; [reflexivity|]. split; [reflexivity|].
    split; [discriminate|]. intros front E.
    apply (f_equal (@rev Z)) in E. rewrite rev_app_distr in E. discriminate E. }
  destruct lowered as [title|]; [|exact Hdefault]. unfold baseName.
  destruct (hyphenate_hyphens false _ (hyphenate_spaces false title)) as [Hok Hone].
  pose proof (stripHyphens_shape _ Hok Hone) as H. cbv zeta in H.
  destruct (stripHyphens _) as [|c name]; [exact Hdefault|].
  cbn [or_else]. split; [discriminate | exact H].
Qed.

(** A run of digits before a unit that is no digit is determined by the
    whole. *)
Lemma digits_before a : forall b x y c,
  forallb is_digit a = true -> forallb is_digit b = true -> is_digit c = false ->
  a ++ c :: x = b ++ c :: y -> a = b.
Proof.
  induction a as [|d a IH]; intros b x y c Ha Hb Hc E.
  - destruct b as [|e b]; [reflexivity|]. cbn [app forallb] in *.
    injection E as <- _. apply andb_true_iff in Hb as [Hb _]. congruence.
  - destruct b as [|e b]; cbn [app forallb] in *.
    + injection E as -> _. apply andb_true_iff in Ha as [Ha _]. congruence.
    + injection E as <- E. apply andb_true_iff in Ha as [_ Ha].
      apply andb_true_iff in Hb as [_ Hb]. f_equal. exact (IH _ _ _ _ Ha Hb Hc E).
Qed.

Lemma units_of_zeros k d :
  units_of_uint (zeros k d) = repeat 48 k ++ units_of_uint d.
Proof. induction k as [|k IH]; [reflexivity|]. cbn. now rewrite IH. Qed.

Lemma of_uint_zeros k d : Pos.of_uint (zeros k d) = Pos.of_uint d.
Proof. induction k as [|k IH]; [reflexivity|]. cbn. exact IH. Qed.

Lemma padded_decimal_inj k1 k2 p1 p2 :
  repeat 48 k1 ++ decimal (Zpos p1) = repeat 48 k2 ++ decimal (Zpos p2) -> p1 = p2.
Proof.
  cbn [decimal]. rewrite <- !units_of_zeros. intros E.
  apply units_of_uint_inj in E. apply (f_equal Pos.of_uint) in E.
  rewrite !of_uint_zeros, !DecimalPos.Unsigned.of_to in E. congruence.
Qed.

Lemma padded_decimal_digits k p :
  forallb is_digit (repeat 48 k ++ decimal (Zpos p)) = true.
Proof.
  cbn [decimal]. rewrite <- units_of_zeros. apply units_of_uint_digits.
Qed.

End PDFFacts.

(* ================================================================== *)
(** ** Further facts: the reference instance and the sample inputs *)

Module ReferenceWords.
Import Reference ReferenceFacts.

Lemma hex_digit_is_no_space x : is_hex_digit x = true -> is_space x = false.
Proof. intros H. apply not_space. zcases. Qed.

Lemma prints_words : share_prints_words packages.
Proof.
  intros hex n t w shares w' H. cbn in H.
  apply share_ok in H as (Ht & Hn & Hhex & ->).
  eapply Forall_impl; [|apply tokens]. cbn beta.
  intros s (id & Hid & ->). unfold token.
  change (js "8" ++ Buffer.toString_hex [id] ++ map lower_hex hex)
    with (56 :: (Buffer.toString_hex [id] ++ map lower_hex hex)).
  cbn [forallb]. change (negb (is_space 56)) with true. cbn [andb].
  rewrite forallb_app. apply andb_true_iff. split.
  - assert (Hb : Forall byte [id]) by (repeat constructor; unfold byte; lia).
    pose proof (BufferFacts.toString_hex_is_hex _ Hb) as Hd.
    rewrite forallb_forall in *. intros x Hx.
    now rewrite (hex_digit_is_no_space x (Hd x Hx)).
  - rewrite forallb_forall in *. intros x Hx.
    apply in_map_iff in Hx as (y & <- & Hy). specialize (Hhex y Hy).
    rewrite not_space; [reflexivity|]. unfold lower_hex. zcases.
Qed.

End ReferenceWords.

Module WitnessFacts.

Lemma absent (x : Z) (s : jsstring) :
  forallb (fun c => negb (c =? x)) s = true -> ~ In x s.
Proof.
  intros H Hin. rewrite forallb_forall in H. specialize (H x Hin).
  now rewrite Z.eqb_refl in H.
Qed.

Lemma words_are_trimmed (shares : list jsstring) :
  forallb (forallb (fun c => negb (is_space c))) shares = true ->
  Forall (fun share => ~ In 10 share /\ trim share = share) shares.
Proof.
  intros H. apply Forall_forall. intros share Hin. apply word_is_trimmed.
  rewrite forallb_forall in H. exact (H share Hin).
Qed.

Lemma choice_dec (idx : list nat) (shares : list jsstring) :
  NoDup idx -> forallb (fun i => Nat.ltb i (List.length shares)) idx = true ->
  choice idx shares.
Proof.
  intros Hd H. split; [exact Hd|]. apply Forall_forall. intros i Hi.
  rewrite forallb_forall in H. now apply Nat.ltb_lt, H.
Qed.

End WitnessFacts.
Import PDFFacts AnswerFacts KeyFacts WitnessFacts.

Ltac known E := vm_compute in E; injection E as <- <-.
Ltac chosen :=
  apply choice_dec; [repeat constructor; cbn; intuition lia | reflexivity].

(* ================================================================== *)
(** ** Further properties of the encoder and the decoder *)

(** X4 — The canonical hex is whole bytes of hexadecimal digits.  For every
    string, [stringToHex] returns hexadecimal digits only, an even number
    of them, and none only for the empty string. *)
Theorem X4_canonical_hex (str : jsstring) :
  well_formed str ->
  forallb is_hex_digit (stringToHex str) = true
  /\ len (stringToHex str) mod 2 = 0
  /\ (stringToHex str = [] <-> str = []).
Proof.
  intros Hwf. split; [now apply CodecFacts.stringToHex_is_hex|].
  unfold stringToHex. destruct (test_all is_hex_digit str) eqn:E.
  - destruct str as [|c str]; [discriminate|].
    destruct (Z.eqb_spec (len (c :: str) mod 2) 0) as [Heven|Hodd]; cbn [negb].
    + split; [exact Heven | split; discriminate].
    + split; [|split; discriminate].
      change (js "0" ++ c :: str) with (48 :: c :: str). rewrite len_cons.
      Z.div_mod_to_equations; lia.
  - rewrite BufferFacts.len_toString_hex.
    split; [rewrite Z.mul_comm; apply Z.mod_mul; lia|].
    destruct str as [|c str]; [split; reflexivity|].
    split; [|discriminate]. intros H. exfalso.
    assert (Hlen : len (Buffer.toString_hex (Buffer.from_utf8 (c :: str))) = 0)
      by now rewrite H.
    rewrite BufferFacts.len_toString_hex in Hlen.
    assert (1 <= len (Buffer.from_utf8 (c :: str))); [|lia].
    cbn [Buffer.from_utf8].
    assert (Hcp : forall cp, 1 <= len (Buffer.utf8_of_code_point cp)).
    { intros cp. unfold Buffer.utf8_of_code_point.
      destruct (cp <? 128); [cbn; lia|]. destruct (cp <? 2048); [cbn; lia|].
      destruct (cp <? 65536); cbn; lia. }
    destruct (Buffer.is_high_surrogate c).
    + destruct str as [|d str]; [cbn; lia|].
      destruct (Buffer.is_low_surrogate d); rewrite len_app.
      * pose proof (Hcp (65536 + (c - 55296) * 1024 + (d - 56320))).
        pose proof (len_nonneg (Buffer.from_utf8 str)). lia.
      * pose proof (len_nonneg (Buffer.from_utf8 (d :: str))).
        change (len Buffer.replacement_bytes) with 3. lia.
    + destruct (Buffer.is_low_surrogate c); rewrite len_app.
      * pose proof (len_nonneg (Buffer.from_utf8 str)).
        change (len Buffer.replacement_bytes) with 3. lia.
      * pose proof (Hcp c). pose proof (len_nonneg (Buffer.from_utf8 str)). lia.
Qed.

Lemma X4_canonical_hex_witness :
  well_formed (js "abc")
  /\ forallb is_hex_digit (stringToHex (js "abc")) = true
  /\ len (stringToHex (js "abc")) mod 2 = 0.
Proof.
  assert (H : well_formed (js "abc")) by (apply well_formedb_spec; reflexivity).
  split; [exact H|].
  destruct (X4_canonical_hex (js "abc") H) as (Hhex & Heven & _).
  split; [exact Hhex | exact Heven].
Defined.

(** X5 — A leading zero digit is always lost.  Whatever hexadecimal
    string of two or more units begins with the digit 0, the decoder
    returns something strictly shorter: it never gives such a string
    back. *)
Theorem X5_leading_zero_is_lost (hex rest : jsstring) :
  hex = 48 :: rest -> rest <> [] ->
  len (hexToString hex) < len hex /\ hexToString hex <> hex.
Proof.
  intros -> Hrest.
  assert (H : len (hexToString (48 :: rest)) < len (48 :: rest)).
  { pose proof (DecoderFacts.len_hexToString (48 :: rest)) as [_ Hb].
    cbn [strip_leading_zeros] in Hb. change (48 =? 48) with true in Hb.
    cbn match in Hb.
    pose proof (DecoderFacts.len_strip_leading_zeros rest).
    rewrite len_cons. destruct rest as [|c rest]; [congruence|].
    rewrite len_cons in *. pose proof (len_nonneg rest). lia. }
  split; [exact H|]. intros E. rewrite E in H. lia.
Qed.

Lemma X5_leading_zero_is_lost_witness :
  len (hexToString Samples.zero_key) < len Samples.zero_key
  /\ hexToString Samples.zero_key <> Samples.zero_key.
Proof.
  apply (X5_leading_zero_is_lost Samples.zero_key (skipn 1 Samples.zero_key));
    [reflexivity | discriminate].
Defined.

(** X6 — A string of zeros is decoded to "0".  Whatever its length, the
    empty string included, a hexadecimal string made of the digit 0 alone
    comes out of the decoder as the one-character string "0". *)
Theorem X6_zeros_decode_to_zero (hex : jsstring) :
  Forall (fun c => c = 48) hex -> hexToString hex = js "0".
Proof.
  intros H. unfold hexToString.
  assert (E : strip_leading_zeros hex = []).
  { induction H as [|c hex -> _ IH]; [reflexivity | exact IH]. }
  rewrite E. reflexivity.
Qed.

Lemma X6_zeros_decode_to_zero_witness :
  hexToString (repeat 48 64) = js "0" /\ hexToString [] = js "0".
Proof.
  split.
  - apply X6_zeros_decode_to_zero. repeat constructor.
  - apply X6_zeros_decode_to_zero. constructor.
Defined.


(* ================================================================== *)
(** ** Further properties of the engine *)

(** X7 — No hexadecimal secret that begins with 0 is restored.  For a
    secret of an even number (two or more) of hexadecimal digits whose
    first digit is 0 (one private key in sixteen), every [t] of its
    shares restore to a string that is strictly shorter than the secret. *)
Theorem X7_zero_led_secret_is_not_restored (L : Libraries) :
  share_accepts L -> share_returns_n L -> combine_recovers L ->
  forall (secret rest : jsstring) (n t : Z) (w : World),
    secret = 48 :: rest -> rest <> [] ->
    forallb is_hex_digit secret = true -> len secret mod 2 = 0 ->
    2 <= t <= n -> n <= 255 ->
    exists shares w',
      createShares secret n t None w = (Ok shares, w')
      /\ forall idx w2,
           choice idx shares -> len idx = t ->
           exists restored,
             fst (restoreSecret (pick idx shares) None w2) = Ok restored
             /\ len restored < len secret.
Proof.
  intros Hacc Hret Hrec secret rest n t w -> Hrest Hhex Heven Ht Hn.
  assert (Hcanon : stringToHex (48 :: rest) = 48 :: rest).
  { unfold stringToHex, test_all. now rewrite Hhex, Heven. }
  destruct (restore_after_create L Hacc Hret Hrec (48 :: rest) n t w) as
    (shares & w' & E & _ & Hback); try assumption.
  { now rewrite Hcanon. }
  exists shares, w'. split; [exact E|]. intros idx w2 Hidx Hsel.
  eexists. split; [exact (Hback idx w2 Hidx Hsel)|].
  rewrite Hcanon. cbn [map]. change (lower_hex 48) with 48.
  assert (Hlen : len (48 :: rest) = len (48 :: map lower_hex rest))
    by (unfold len; cbn [List.length]; now rewrite length_map).
  rewrite Hlen. apply leading_zero_shortens.
  destruct rest; [congruence | discriminate].
Qed.

Lemma X7_zero_led_secret_is_not_restored_witness :
  exists shares w',
    createShares (L := Reference.packages) Samples.zero_key 3 2 None 0
    = (Ok shares, w')
    /\ exists restored,
         fst (restoreSecret (pick [2; 0]%nat shares) None w') = Ok restored
         /\ len restored < len Samples.zero_key.
Proof.
  destruct (X7_zero_led_secret_is_not_restored Reference.packages
              ReferenceFacts.accepts ReferenceFacts.returns_n
              ReferenceFacts.recovers Samples.zero_key (skipn 1 Samples.zero_key)
              3 2 0 eq_refl ltac:(discriminate) eq_refl eq_refl
              ltac:(lia) ltac:(lia))
    as (shares & w' & E & H).
  exists shares, w'. split; [exact E|]. apply H; [|reflexivity].
  known E. chosen.
Defined.

(** X8 — [restoreSecret] never returns the empty string, whatever the
    shares, the password and the packages. *)
Theorem X8_restored_secret_is_never_empty (L : Libraries)
    (shares : list jsstring) (password : option jsstring) (w : World) :
  fst (restoreSecret shares password w) <> Ok [].
Proof.
  destruct (Z.lt_ge_cases (len shares) 2) as [Hshort|Hlen].
  - rewrite restoreSecret_short by assumption. discriminate.
  - destruct (restoreSecret_run shares password w Hlen)
      as [(m & w' & ->)|(l & w1 & ->)]; [discriminate|].
    unfold finish.
    assert (Hdec : forall hex, hexToString hex <> []).
    { intros hex E. pose proof (DecoderFacts.len_hexToString hex) as [H _].
      rewrite E in H. cbn in H. lia. }
    destruct (secrets_combine l w1) as [[hex|m] w2]; [|discriminate].
    destruct (given password) as [pw|];
      [|intros E; injection E as E; exact (Hdec _ E)].
    destruct (isEncrypted (hexToString hex));
      [|intros E; injection E as E; exact (Hdec _ E)].
    rewrite decrypt_run.
    destruct (AES_decrypt_utf8 _ pw w2) as [[[|c r]|m] w3]; discriminate.
Qed.

(** X9 — Text round trip.  A text secret that holds at least one printable
    ASCII character and whose UTF-8 is not 32 bytes long is restored
    exactly, by any [t] of its [n] shares, accents, symbols and characters
    outside the basic plane included. *)
Theorem X9_text_round_trip (L : Libraries) :
  share_accepts L -> share_returns_n L -> combine_recovers L ->
  forall (secret : jsstring) (n t : Z) (w : World),
    plain_text secret = true ->
    test_some is_printable secret = true ->
    len (Buffer.from_utf8 secret) <> 32 ->
    2 <= t <= n -> n <= 255 ->
    exists shares w',
      createShares secret n t None w = (Ok shares, w')
      /\ len shares = n
      /\ forall idx w2,
           choice idx shares -> len idx = t ->
           fst (restoreSecret (pick idx shares) None w2) = Ok secret.
Proof.
  intros Hacc Hret Hrec secret n t w Htext Hprint Hlen Ht Hn.
  destruct (restore_text L Hacc Hret Hrec secret n t w Htext Ht Hn)
    as (shares & w' & E & Hcount & Hback).
  exists shares, w'. split; [exact E|]. split; [exact Hcount|].
  intros idx w2 Hidx Hsel. rewrite (Hback idx w2 Hidx Hsel). f_equal.
  destruct (plain_text_shape _ Htext) as (Hwp & _ & Hbytes & b & bytes & Eb & Hb).
  rewrite Eb in *. rewrite hexToString_bytes by assumption. cbv zeta.
  rewrite <- Eb, (utf8_round_trip _ Hwp). now apply text_tests_printable.
Qed.

Lemma X9_text_round_trip_witness :
  let secret := [80; 228; 115; 115; 32; 55357; 56593] in
  plain_text secret = true
  /\ exists shares w',
       createShares (L := Reference.packages) secret 3 2 None 0 = (Ok shares, w')
       /\ fst (restoreSecret (pick [1; 2]%nat shares) None w') = Ok secret.
Proof.
  intros secret. split; [reflexivity|].
  destruct (X9_text_round_trip Reference.packages
              ReferenceFacts.accepts ReferenceFacts.returns_n
              ReferenceFacts.recovers secret 3 2 0 eq_refl eq_refl
              ltac:(discriminate) ltac:(lia) ltac:(lia))
    as (shares & w' & E & _ & H).
  exists shares, w'. split; [exact E|]. apply H; [|reflexivity].
  known E. chosen.
Defined.

(** X10 — Text without a printable ASCII character comes back as hex.  A
    text secret none of whose units is in the range 0x20-0x7E (text in a
    non-Latin script, say) is restored as the hexadecimal digits of its
    UTF-8 bytes, not as the text. *)
Theorem X10_unprintable_text_comes_back_as_hex (L : Libraries) :
  share_accepts L -> share_returns_n L -> combine_recovers L ->
  forall (secret : jsstring) (n t : Z) (w : World),
    plain_text secret = true ->
    test_some is_printable secret = false ->
    2 <= t <= n -> n <= 255 ->
    exists shares w',
      createShares secret n t None w = (Ok shares, w')
      /\ forall idx w2,
           choice idx shares -> len idx = t ->
           fst (restoreSecret (pick idx shares) None w2)
           = Ok (Buffer.toString_hex (Buffer.from_utf8 secret))
           /\ Buffer.toString_hex (Buffer.from_utf8 secret) <> secret.
Proof.
  intros Hacc Hret Hrec secret n t w Htext Hprint Ht Hn.
  destruct (restore_text L Hacc Hret Hrec secret n t w Htext Ht Hn)
    as (shares & w' & E & Hcount & Hback).
  exists shares, w'. split; [exact E|].
  intros idx w2 Hidx Hsel. rewrite (Hback idx w2 Hidx Hsel).
  destruct (plain_text_shape _ Htext) as (Hwp & _ & Hbytes & b & bytes & Eb & Hb).
  assert (Hnot : test_all is_hex_digit secret = false).
  { unfold plain_text in Htext. apply andb_true_iff in Htext as [H _].
    apply andb_true_iff in H as [_ H]. now apply negb_true_iff in H. }
  split.
  - f_equal. rewrite Eb in *.
    destruct (Z.eq_dec (len (b :: bytes)) 32) as [H32|H32].
    + now apply hexToString_32_bytes.
    + rewrite hexToString_bytes by assumption. cbv zeta.
      rewrite <- Eb, (utf8_round_trip _ Hwp). now apply text_tests_unprintable.
  - apply hex_is_not_text; [assumption | assumption | rewrite Eb; discriminate].
Qed.

Lemma X10_unprintable_text_comes_back_as_hex_witness :
  let secret := [26085; 26412; 35486] in
  plain_text secret = true
  /\ exists shares w',
       createShares (L := Reference.packages) secret 3 2 None 0 = (Ok shares, w')
       /\ fst (restoreSecret (pick [0; 1]%nat shares) None w')
          = Ok (js "e697a5e69cace8aa9e").
Proof.
  intros secret. split; [reflexivity|].
  destruct (X10_unprintable_text_comes_back_as_hex Reference.packages
              ReferenceFacts.accepts ReferenceFacts.returns_n
              ReferenceFacts.recovers secret 3 2 0 eq_refl eq_refl
              ltac:(lia) ltac:(lia))
    as (shares & w' & E & H).
  exists shares, w'. split; [exact E|].
  apply (H [0; 1]%nat w'); [|reflexivity].
  known E. chosen.
Defined.

(** X11 — A text of 32 bytes is taken for a key.  A text secret whose UTF-8
    is exactly 32 bytes long is restored as the 64 hexadecimal digits of
    those bytes, whatever it contains. *)
Theorem X11_text_of_32_bytes_comes_back_as_hex (L : Libraries) :
  share_accepts L -> share_returns_n L -> combine_recovers L ->
  forall (secret : jsstring) (n t : Z) (w : World),
    plain_text secret = true ->
    len (Buffer.from_utf8 secret) = 32 ->
    2 <= t <= n -> n <= 255 ->
    exists shares w',
      createShares secret n t None w = (Ok shares, w')
      /\ forall idx w2,
           choice idx shares -> len idx = t ->
           fst (restoreSecret (pick idx shares) None w2)
           = Ok (Buffer.toString_hex (Buffer.from_utf8 secret))
           /\ len (Buffer.toString_hex (Buffer.from_utf8 secret)) = 64
           /\ Buffer.toString_hex (Buffer.from_utf8 secret) <> secret.
Proof.
  intros Hacc Hret Hrec secret n t w Htext Hlen Ht Hn.
  destruct (restore_text L Hacc Hret Hrec secret n t w Htext Ht Hn)
    as (shares & w' & E & Hcount & Hback).
  exists shares, w'. split; [exact E|].
  intros idx w2 Hidx Hsel. rewrite (Hback idx w2 Hidx Hsel).
  destruct (plain_text_shape _ Htext) as (Hwp & _ & Hbytes & b & bytes & Eb & Hb).
  assert (Hnot : test_all is_hex_digit secret = false).
  { unfold plain_text in Htext. apply andb_true_iff in Htext as [H _].
    apply andb_true_iff in H as [_ H]. now apply negb_true_iff in H. }
  split; [|split].
  - f_equal. rewrite Eb in *. now apply hexToString_32_bytes.
  - rewrite len_toString_hex. lia.
  - apply hex_is_not_text; [assumption | assumption | rewrite Eb; discriminate].
Qed.

Lemma X11_text_of_32_bytes_comes_back_as_hex_witness :
  let secret := js "correct horse battery staple 123" in
  plain_text secret = true
  /\ exists shares w',
       createShares (L := Reference.packages) secret 3 2 None 0 = (Ok shares, w')
       /\ fst (restoreSecret (pick [0; 1]%nat shares) None w')
          = Ok (Buffer.toString_hex (Buffer.from_utf8 secret)).
Proof.
  intros secret. split; [reflexivity|].
  destruct (X11_text_of_32_bytes_comes_back_as_hex Reference.packages
              ReferenceFacts.accepts ReferenceFacts.returns_n
              ReferenceFacts.recovers secret 3 2 0 eq_refl eq_refl
              ltac:(lia) ltac:(lia))
    as (shares & w' & E & H).
  exists shares, w'. split; [exact E|].
  apply (H [0; 1]%nat w'); [|reflexivity].
  known E. chosen.
Defined.

(** X12 — What a password changes in [createShares].  With a non-empty
    password, what is split is never the secret: it is the hex of the
    marker and the ciphertext of the secret.  And each of the [n] shares
    returned is the marker and the ciphertext of a share of the package. *)
Theorem X12_protected_split (L : Libraries) :
  share_returns_n L ->
  forall (secret pw : jsstring) (n t : Z) (w w' : World) (shares : list jsstring),
    pw <> [] ->
    createShares secret n t (Some pw) w = (Ok shares, w') ->
    len shares = n
    /\ Forall (fun share => isEncrypted share = true) shares
    /\ exists c w1 plain w2,
         AES_encrypt secret pw w = (Ok c, w1)
         /\ secrets_share (stringToHex (marker ++ c)) n t w1 = (Ok plain, w2)
         /\ Forall2 (fun p e => exists ci wa wb,
                         e = marker ++ ci /\ AES_encrypt p pw wa = (Ok ci, wb))
              plain shares.
Proof.
  intros Hret secret pw n t w w' shares Hpw Hcreate.
  destruct (createShares_protected _ _ _ _ _ _ _ Hpw Hcreate)
    as (c & w1 & plain & w2 & Hc & Hsplit & Henc).
  pose proof (encryptShares_origin _ _ _ _ _ Henc) as Hpairs.
  destruct (Hret _ _ _ _ _ _ Hsplit) as [Hn _].
  split; [|split].
  - unfold len in *. now rewrite <- (Forall2_length_eq _ _ Hpairs).
  - clear - Hpairs. induction Hpairs as [|p e ps es (ci & wa & wb & -> & _) _ IH];
      constructor; [apply startsWith_app | exact IH].
  - now exists c, w1, plain, w2.
Qed.

Lemma X12_protected_split_witness :
  let shares :=
    Samples.shares_of Samples.test_key 3 2 (Some Samples.password) in
  len shares = 3 /\ Forall (fun share => isEncrypted share = true) shares.
Proof.
  intros shares.
  destruct (X12_protected_split Reference.packages ReferenceFacts.returns_n
              Samples.test_key Samples.password 3 2 0 5 shares
              ltac:(discriminate) ltac:(vm_compute; reflexivity))
    as (Hlen & Hmarked & _).
  split; [exact Hlen | exact Hmarked].
Defined.

(** X13 — A password is ignored on shares that carry no marker.  When the
    first share does not begin with the marker and the restored text does
    not either, [restoreSecret] with any password does exactly what it does
    without one. *)
Theorem X13_password_ignored_on_plain_shares (L : Libraries)
    (shares : list jsstring) (password : option jsstring) (w : World) :
  isEncrypted (nth 0 shares []) = false ->
  (forall hex, fst (secrets_combine shares w) = Ok hex ->
               isEncrypted (hexToString hex) = false) ->
  restoreSecret shares password w = restoreSecret shares None w.
Proof.
  intros Hfirst Hplain.
  destruct (Z.lt_ge_cases (len shares) 2) as [Hshort|Hlen].
  - now rewrite !restoreSecret_short.
  - rewrite !restoreSecret_closed_gate by auto.
    rewrite !combine_and_finish_run. unfold finish.
    destruct (secrets_combine shares w) as [[hex|m] w1] eqn:E; [|reflexivity].
    cbn [given]. destruct (given password); [|reflexivity].
    now rewrite (Hplain hex eq_refl).
Qed.

Lemma X13_password_ignored_on_plain_shares_witness :
  let shares := Samples.shares_of Samples.test_key 3 2 None in
  restoreSecret (L := Reference.packages) shares (Some Samples.password) 0
  = restoreSecret (L := Reference.packages) shares None 0.
Proof.
  intros shares.
  apply (X13_password_ignored_on_plain_shares Reference.packages shares
           (Some Samples.password) 0 eq_refl).
  intros hex H. vm_compute in H. injection H as <-. reflexivity.
Defined.


(* ================================================================== *)
(** ** Properties of the commands *)

(** X14 — What [create --output] writes, [restore --file] reads back.  For
    shares that hold no line feed and no white space at either end (as
    the shares of the packages are), the shares read from the content of
    the share file are the shares that were written, in order. *)
Theorem X14_share_file_round_trip (shares : list jsstring) :
  Forall (fun share => ~ In 10 share /\ trim share = share) shares ->
  sharesFromFile (sharesFileContent shares) = shares.
Proof.
  intros H. unfold sharesFromFile, sharesFileContent.
  destruct (CommandFacts.labelled_lines_read 0 shares ltac:(lia) H) as [Hnl Hread].
  destruct shares as [|share shares]; [reflexivity|].
  rewrite CommandFacts.split_join; [exact Hread | discriminate | exact Hnl].
Qed.

Lemma X14_share_file_round_trip_witness :
  let shares := Samples.shares_of Samples.test_key 3 2 None in
  sharesFromFile (sharesFileContent shares) = shares.
Proof.
  intros shares. apply X14_share_file_round_trip.
  apply words_are_trimmed. reflexivity.
Defined.

(** X15 — The file of [generate] is read back as well.  The lines of its
    header (date, address, mnemonic, counts) are passed over, and the
    shares read are the shares written, provided no line feed hides in the
    header values. *)
Theorem X15_generated_file_round_trip
    (date address mnemonic : jsstring) (totalShares threshold : Z)
    (written : list jsstring) :
  ~ In 10 date -> ~ In 10 address -> ~ In 10 mnemonic ->
  Forall (fun share => ~ In 10 share /\ trim share = share) written ->
  sharesFromFile
    (generatedFileContent date address mnemonic totalShares threshold written)
  = written.
Proof. apply generated_file_read. Qed.

Lemma X15_generated_file_round_trip_witness :
  let shares := Samples.shares_of Samples.test_mnemonic 3 2 None in
  sharesFromFile
    (generatedFileContent (js "2024-05-17T09:30:00.000Z")
       (js "0x9858EfFD232B4033E47d90003D41EC34EcaEda94")
       Samples.test_mnemonic 3 2 shares)
  = shares.
Proof.
  intros shares.
  apply X15_generated_file_round_trip;
    [apply absent; reflexivity | apply absent; reflexivity
     | apply absent; reflexivity|].
  apply words_are_trimmed. reflexivity.
Defined.

(** X16 — The answer to the prompt.  Shares typed with commas between
    them, or with a comma and a space, are read back as typed, whatever
    white space stands around them, when no share is empty or holds a
    comma. *)
Theorem X16_answer_round_trip (shares : list jsstring) :
  Forall (fun share => share <> [] /\ ~ In 44 share /\ trim share = share) shares ->
  sharesFromAnswer (join (js ",") shares) = shares
  /\ sharesFromAnswer (join (js ", ") shares) = shares.
Proof.
  intros H. unfold sharesFromAnswer. split.
  - destruct shares as [|share others]; [reflexivity|].
    change (js ",") with [44]. rewrite split_join.
    + apply answer_pieces. clear - H.
      induction H as [|s l (Hne & _ & Ht) _ IH]; constructor; auto.
    + discriminate.
    + eapply Forall_impl; [|exact H]. cbn beta. tauto.
  - rewrite join_comma_space. destruct shares as [|share others]; [reflexivity|].
    inversion H as [|s l (Hne & Hc & Ht) Hothers]; subst.
    rewrite split_join.
    + apply answer_pieces. constructor; [auto|]. clear - Hothers.
      induction Hothers as [|s l (Hne & _ & Ht) _ IH]; cbn [map]; constructor; auto.
    + discriminate.
    + constructor; [exact Hc|]. clear - Hothers.
      induction Hothers as [|s l (_ & Hc & _) _ IH]; cbn [map]; constructor; auto.
      intros [Hin|Hin]; [discriminate | contradiction].
Qed.

Lemma X16_answer_round_trip_witness :
  let shares := Samples.shares_of Samples.test_key 3 2 None in
  sharesFromAnswer (join (js ", ") shares) = shares.
Proof.
  intros shares. apply X16_answer_round_trip.
  repeat constructor; try discriminate; try (apply absent; reflexivity).
Defined.

(** X17 — The key check of [create].  Whether the key comes from the
    option or from the prompt, it is accepted exactly when it is 64
    hexadecimal digits, with or without one "0x" in front; what is handed
    to the engine is the 64 digits as typed, and the engine hands them to
    the sharing package unchanged. *)
Theorem X17_key_check (key : option jsstring) (answer r : jsstring) :
  let typed := match given key with Some k => k | None => answer end in
  (checkPrivateKey key answer = Ok r
   <-> hex_key r = true /\ (typed = r \/ typed = js "0x" ++ r))
  /\ (checkPrivateKey key answer = Ok r -> stringToHex r = r).
Proof.
  intros typed.
  assert (Hiff : checkPrivateKey key answer = Ok r
                 <-> hex_key r = true /\ (typed = r \/ typed = js "0x" ++ r)).
  { unfold checkPrivateKey, hex_key. fold typed. cbv zeta. split.
    - intros H.
      assert (Hcases : exists p,
                 p = match typed with
                     | _ :: _ => if startsWith typed (js "0x")
                                 then substring 2 typed else typed
                     | [] => typed
                     end
                 /\ (typed = p \/ typed = js "0x" ++ p)).
      { eexists. split; [reflexivity|]. destruct typed as [|k0 k]; [now left|].
        destruct (startsWith (k0 :: k) (js "0x")) eqn:E; [|now left].
        right. apply startsWith_inv in E. exact E. }
      destruct Hcases as (p & Ep & Hp). rewrite <- Ep in H.
      destruct p as [|p0 p]; [discriminate|].
      destruct (Z.eqb_spec (len (p0 :: p)) 64) as [Hlen|]; cbn [negb] in H;
        [|discriminate].
      destruct (test_all is_hex_digit (p0 :: p)) eqn:Ehex; cbn [negb] in H;
        [|discriminate].
      injection H as <-. split; [|exact Hp].
      rewrite Hlen. exact Ehex.
    - intros [Hkey Hform]. apply andb_true_iff in Hkey as [Hlen Hhex].
      apply Z.eqb_eq in Hlen.
      destruct r as [|r0 r]; [discriminate|].
      assert (Hx : startsWith (r0 :: r) (js "0x") = false).
      { destruct (startsWith (r0 :: r) (js "0x")) eqn:E; [|reflexivity].
        apply startsWith_inv in E.
        assert (Hin : In 120 (r0 :: r)) by (rewrite E; cbn; tauto).
        rewrite forallb_forall in Hhex. specialize (Hhex 120 Hin). discriminate. }
      destruct Hform as [-> | ->].
      + rewrite Hx. cbv beta iota. rewrite Hlen.
        unfold test_all. rewrite Hhex. reflexivity.
      + change (js "0x" ++ r0 :: r) with (48 :: 120 :: r0 :: r).
        cbv beta iota.
        change (startsWith (48 :: 120 :: r0 :: r) (js "0x")) with true.
        change (substring 2 (48 :: 120 :: r0 :: r)) with (r0 :: r).
        cbv beta iota. rewrite Hlen. unfold test_all. rewrite Hhex. reflexivity. }
  split; [exact Hiff|].
  intros H. apply Hiff in H as [Hkey _]. unfold hex_key in Hkey.
  apply andb_true_iff in Hkey as [Hlen Hhex]. apply Z.eqb_eq in Hlen.
  unfold stringToHex. destruct r as [|r0 r]; [discriminate|].
  unfold test_all. rewrite Hhex, Hlen. reflexivity.
Qed.

Lemma X17_key_check_witness :
  checkPrivateKey (Some (js "0x" ++ Samples.upper_key)) [] = Ok Samples.upper_key
  /\ stringToHex Samples.upper_key = Samples.upper_key.
Proof.
  destruct (X17_key_check (Some (js "0x" ++ Samples.upper_key)) []
              Samples.upper_key) as [Hiff Hcanon].
  assert (H : checkPrivateKey (Some (js "0x" ++ Samples.upper_key)) []
              = Ok Samples.upper_key).
  { apply Hiff. split; [reflexivity | right; reflexivity]. }
  split; [exact H | exact (Hcanon H)].
Defined.

(** X18 — What [restore] makes of the engine's answer.  Once two or more
    shares are loaded: a restored secret that is mnemonic-shaped or 64
    hexadecimal digits is printed; any other restored secret is refused;
    and a failure of the engine, which already begins with "Failed to
    restore secret: ", is thrown with that prefix once more. *)
Theorem X18_restore_outcomes (L : Libraries) (options : RestoreOptions)
    (disk : jsstring -> result jsstring) (answer : jsstring)
    (loaded : list jsstring) (w : World) :
  loadShares options disk answer = Ok loaded -> 2 <= len loaded ->
  (forall secret,
      fst (restoreSecret loaded (password options) w) = Ok secret ->
      fst (restoreKey options disk answer w)
      = if isMnemonic secret || isPrivateKey secret then Ok secret
        else Err (js "Failed to restore secret: Restored secret is neither a valid mnemonic nor a valid private key"))
  /\ (forall message,
        fst (restoreSecret loaded (password options) w) = Err message ->
        exists cause,
          message = js "Failed to restore secret: " ++ cause
          /\ fst (restoreKey options disk answer w)
             = Err (js "Failed to restore secret: "
                      ++ js "Failed to restore secret: " ++ cause)).
Proof.
  intros Hload Hlen. rewrite (restoreKey_outcome _ _ _ _ _ Hload Hlen). split.
  - intros secret E.
    destruct (restoreSecret loaded (password options) w) as [[s|m] w'];
      cbn [fst] in E; [|discriminate].
    injection E as ->. now destruct (isMnemonic secret || isPrivateKey secret).
  - intros message E.
    assert (Hprefix : exists cause,
               message = js "Failed to restore secret: " ++ cause).
    { destruct (restoreSecret_run loaded (password options) w Hlen)
        as [(m & w' & Hm)|(l & w1 & Hl)].
      - rewrite Hm in E. cbn [fst] in E. exists m. congruence.
      - rewrite Hl in E.
        destruct (finish_outcome (password options) (secrets_combine l w1))
          as [(r & Hr)|(m & Hm)]; rewrite ?Hr, ?Hm in E;
          [discriminate | exists m; congruence]. }
    destruct Hprefix as (cause & Hcause). exists cause.
    split; [exact Hcause|].
    destruct (restoreSecret loaded (password options) w) as [[r|m] w'];
      cbn [fst] in E; [discriminate|].
    assert (Hm : m = message) by congruence. subst m. cbn [fst].
    now rewrite Hcause.
Qed.

Lemma X18_restore_outcomes_witness :
  let options :=
    {| Commands.shares :=
         Some (firstn 2 (Samples.shares_of Samples.test_key 3 2 None));
       file := None; Commands.password := None |} in
  fst (restoreKey (L := Reference.packages) options (fun _ => Err []) [] 0)
  = Ok Samples.test_key.
Proof.
  intros options.
  destruct (X18_restore_outcomes Reference.packages options (fun _ => Err []) []
              (firstn 2 (Samples.shares_of Samples.test_key 3 2 None)) 0
              eq_refl ltac:(vm_compute; discriminate))
    as [Hok _].
  rewrite (Hok Samples.test_key ltac:(vm_compute; reflexivity)). reflexivity.
Defined.

(** X19 — [validate] is a faithful rehearsal of [restore].  On the same
    options, file, answer and world, [validateShares] succeeds exactly
    when [restoreKey] does, reports a mnemonic exactly when the secret
    [restoreKey] prints is mnemonic-shaped, and leaves the same world. *)
Theorem X19_validate_agrees_with_restore (L : Libraries)
    (options : RestoreOptions) (disk : jsstring -> result jsstring)
    (answer : jsstring) (w : World) :
  snd (validateShares options disk answer w)
  = snd (restoreKey options disk answer w)
  /\ match fst (validateShares options disk answer w),
           fst (restoreKey options disk answer w) with
     | Ok reported, Ok secret =>
         reported = if isMnemonic secret then Mnemonic else PrivateKey
     | Err _, Err _ => True
     | _, _ => False
     end.
Proof.
  destruct (loadShares options disk answer) as [loaded|m] eqn:Hload.
  - destruct (Z.lt_ge_cases (len loaded) 2) as [Hshort|Hlen].
    + unfold validateShares, restoreKey. unfold bind, lift. rewrite Hload.
      destruct (Z.ltb_spec (len loaded) 2); [|lia]. split; [reflexivity | exact I].
    + rewrite (validateShares_outcome _ _ _ _ _ Hload Hlen),
        (restoreKey_outcome _ _ _ _ _ Hload Hlen).
      destruct (restoreSecret loaded (password options) w) as [[s|m] w'];
        [|split; [reflexivity | exact I]].
      destruct (isMnemonic s) eqn:Em; cbn [orb].
      * cbn [fst snd]. rewrite Em. split; reflexivity.
      * destruct (isPrivateKey s); cbn [fst snd]; rewrite ?Em;
          split; try reflexivity; exact I.
  - unfold validateShares, restoreKey. unfold bind, lift. rewrite Hload.
    split; [reflexivity | exact I].
Qed.

(** X20 — A share file without labels loads nothing.  When no line of the
    file begins with "Share ", as in a file of bare shares, one per line,
    [restore] stops with the message on the number of shares, whatever
    the file holds, and the packages are not called. *)
Theorem X20_unlabelled_file_is_refused (L : Libraries)
    (shares : option (list jsstring)) (password : option jsstring)
    (disk : jsstring -> result jsstring) (name content answer : jsstring)
    (w : World) :
  name <> [] -> disk name = Ok content ->
  Forall (fun line => startsWith line (js "Share ") = false) (split 10 content) ->
  restoreKey {| Commands.shares := shares; file := Some name;
                Commands.password := password |} disk answer w
  = (Err (js "At least 2 shares are required to restore the private key"), w).
Proof.
  intros Hname Hdisk Hlines. unfold restoreKey. unfold bind, lift, loadShares.
  cbn [file]. rewrite (given_nonempty _ Hname), Hdisk. unfold sharesFromFile.
  assert (Hnone : filter (fun line => (0 <? len (trim line))
                                      && startsWith line (js "Share "))
                    (split 10 content) = []).
  { induction Hlines as [|line lines Hline _ IH]; [reflexivity|].
    cbn [filter]. now rewrite Hline, andb_false_r. }
  rewrite Hnone. reflexivity.
Qed.

Lemma X20_unlabelled_file_is_refused_witness :
  let shares := Samples.shares_of Samples.test_key 3 2 None in
  fst (restoreKey (L := Reference.packages)
         {| Commands.shares := None; file := Some (js "shares.txt");
            Commands.password := None |}
         (fun _ => Ok (join [10] shares)) [] 0)
  = Err (js "At least 2 shares are required to restore the private key").
Proof.
  intros shares.
  rewrite (X20_unlabelled_file_is_refused Reference.packages None None
             (fun _ => Ok (join [10] shares)) (js "shares.txt")
             (join [10] shares) [] 0 ltac:(discriminate) eq_refl
             ltac:(vm_compute; repeat constructor)).
  reflexivity.
Defined.

(** X21 — From [create --output] to [restore --file].  A key accepted by
    the key check that does not begin with 0, split without password and
    written to the share file, is printed by [restore] reading that file,
    in lower case: as it was typed when it was typed in lower case. *)
Theorem X21_key_through_the_share_file (L : Libraries) :
  share_accepts L -> share_returns_n L -> combine_recovers L ->
  share_prints_words L ->
  forall (key : option jsstring) (typed r : jsstring) (n t : Z) (w : World),
    checkPrivateKey key typed = Ok r -> startsWith r (js "0") = false ->
    2 <= t <= n -> n <= 255 ->
    exists shares w',
      createShares r n t None w = (Ok shares, w')
      /\ forall disk name answer w2,
           name <> [] -> disk name = Ok (sharesFileContent shares) ->
           fst (restoreKey {| shares := None; file := Some name; password := None |}
                  disk answer w2)
           = Ok (map lower_hex r).
Proof.
  intros Hacc Hret Hrec Hwords key typed r n t w Hcheck Hzero Ht Hn.
  pose proof (accepted_key_is_hex _ _ _ Hcheck) as Hhexkey.
  pose proof (hex_key_canonical _ Hhexkey) as Hcanon.
  pose proof (lower_key _ Hhexkey Hzero) as Hkey.
  destruct (CodecFacts.plain_key_codec _ Hkey) as (_ & _ & Hback & Hhex).
  destruct (Hacc (stringToHex r) n t w) as (written & w' & E);
    [|assumption | assumption|].
  { rewrite Hcanon. unfold hex_key in Hhexkey.
    now apply andb_true_iff in Hhexkey as [_ Hd]. }
  exists written, w'. rewrite createShares_plain by auto. rewrite E.
  split; [reflexivity|].
  intros disk name answer w2 Hname Hdisk.
  destruct (Hret _ _ _ _ _ _ E) as [Hcount _].
  assert (Hload : loadShares {| shares := None; file := Some name; password := None |}
                    disk answer = Ok written).
  { unfold loadShares. cbn [file]. rewrite (given_nonempty _ Hname), Hdisk.
    f_equal. apply share_file_read.
    eapply Forall_impl; [|exact (Hwords _ _ _ _ _ _ E)].
    intros share. apply word_is_trimmed. }
  rewrite (restoreKey_outcome _ _ _ _ _ Hload) by lia. cbn [password].
  pose proof (restore_all_plain r n t w written w' w2 Hrec Hret E Ht) as Hrestore.
  rewrite Hcanon, Hback in Hrestore.
  destruct (restoreSecret written None w2) as [[s|m] w3]; cbn [fst] in Hrestore;
    [|discriminate].
  injection Hrestore as ->.
  assert (Hpk : isPrivateKey (map lower_hex r) = true).
  { apply hex_key_is_private_key. unfold plain_key in Hkey. unfold hex_key.
    apply andb_true_iff in Hkey as [Hk _]. apply andb_true_iff in Hk as [Hlen _].
    now rewrite Hlen, Hhex. }
  rewrite Hpk, orb_true_r. reflexivity.
Qed.

Lemma X21_key_through_the_share_file_witness :
  exists shares w',
    createShares (L := Reference.packages) Samples.upper_key 3 2 None 0
    = (Ok shares, w')
    /\ fst (restoreKey (L := Reference.packages)
              {| Commands.shares := None; file := Some (js "shares.txt");
                 Commands.password := None |}
              (fun _ => Ok (sharesFileContent shares)) [] w')
       = Ok (map lower_hex Samples.upper_key).
Proof.
  destruct (X21_key_through_the_share_file Reference.packages
              ReferenceFacts.accepts ReferenceFacts.returns_n
              ReferenceFacts.recovers ReferenceWords.prints_words
              (Some (js "0x" ++ Samples.upper_key)) [] Samples.upper_key 3 2 0
              eq_refl eq_refl ltac:(lia) ltac:(lia))
    as (shares & w' & E & H).
  exists shares, w'. split; [exact E|].
  apply H; [discriminate | reflexivity].
Defined.

(** X22 — A key that begins with 0 is never printed.  A key accepted by
    the key check whose first digit is 0, split without password and
    written to the share file, is not what [restore] prints from that
    file: [restore] fails or prints a shorter string. *)
Theorem X22_zero_led_key_is_never_printed (L : Libraries) :
  share_accepts L -> share_returns_n L -> combine_recovers L ->
  share_prints_words L ->
  forall (key : option jsstring) (typed r : jsstring) (n t : Z) (w : World),
    checkPrivateKey key typed = Ok r -> startsWith r (js "0") = true ->
    2 <= t <= n -> n <= 255 ->
    exists shares w',
      createShares r n t None w = (Ok shares, w')
      /\ forall disk name answer w2,
           name <> [] -> disk name = Ok (sharesFileContent shares) ->
           forall printed,
             fst (restoreKey {| shares := None; file := Some name;
                                password := None |} disk answer w2)
             = Ok printed ->
             len printed < len r.
Proof.
  intros Hacc Hret Hrec Hwords key typed r n t w Hcheck Hzero Ht Hn.
  pose proof (accepted_key_is_hex _ _ _ Hcheck) as Hhexkey.
  pose proof (hex_key_canonical _ Hhexkey) as Hcanon.
  assert (Hdigits : forallb is_hex_digit r = true).
  { unfold hex_key in Hhexkey. now apply andb_true_iff in Hhexkey as [_ Hd]. }
  assert (Hshape : exists rest, r = 48 :: rest /\ rest <> []).
  { destruct r as [|c rest]; [discriminate|].
    change (js "0") with [48] in Hzero. cbn [startsWith] in Hzero.
    apply andb_true_iff in Hzero as [Hc _]. apply Z.eqb_eq in Hc. subst c.
    exists rest. split; [reflexivity|]. intros ->. discriminate Hhexkey. }
  destruct Hshape as (rest & -> & Hrest).
  destruct (Hacc (stringToHex (48 :: rest)) n t w) as (written & w' & E);
    [now rewrite Hcanon | assumption | assumption|].
  exists written, w'. rewrite createShares_plain by auto. rewrite E.
  split; [reflexivity|].
  intros disk name answer w2 Hname Hdisk printed Hprinted.
  destruct (Hret _ _ _ _ _ _ E) as [Hcount _].
  assert (Hload : loadShares {| shares := None; file := Some name; password := None |}
                    disk answer = Ok written).
  { unfold loadShares. cbn [file]. rewrite (given_nonempty _ Hname), Hdisk.
    f_equal. apply share_file_read.
    eapply Forall_impl; [|exact (Hwords _ _ _ _ _ _ E)].
    intros share. apply word_is_trimmed. }
  rewrite (restoreKey_outcome _ _ _ _ _ Hload) in Hprinted by lia.
  cbn [password] in Hprinted.
  pose proof (restore_all_plain (48 :: rest) n t w written w' w2 Hrec Hret E Ht)
    as Hrestore.
  rewrite Hcanon in Hrestore. cbn [map] in Hrestore.
  change (lower_hex 48) with 48 in Hrestore.
  destruct (restoreSecret written None w2) as [[s|m] w3]; cbn [fst] in Hrestore;
    [|discriminate].
  injection Hrestore as ->.
  assert (Hlen : len (48 :: rest) = len (48 :: map lower_hex rest))
    by (unfold len; cbn [List.length]; now rewrite length_map).
  assert (Hshort : len (hexToString (48 :: map lower_hex rest)) < len (48 :: rest)).
  { rewrite Hlen. apply leading_zero_shortens. destruct rest; [congruence | discriminate]. }
  destruct (isMnemonic _ || isPrivateKey _); cbn [fst] in Hprinted; [|discriminate].
  injection Hprinted as <-. exact Hshort.
Qed.

Lemma X22_zero_led_key_is_never_printed_witness :
  exists shares w',
    createShares (L := Reference.packages) Samples.zero_key 3 2 None 0
    = (Ok shares, w')
    /\ forall printed,
         fst (restoreKey (L := Reference.packages)
                {| Commands.shares := None; file := Some (js "shares.txt");
                   Commands.password := None |}
                (fun _ => Ok (sharesFileContent shares)) [] w')
         = Ok printed ->
         len printed < 64.
Proof.
  destruct (X22_zero_led_key_is_never_printed Reference.packages
              ReferenceFacts.accepts ReferenceFacts.returns_n
              ReferenceFacts.recovers ReferenceWords.prints_words
              (Some Samples.zero_key) [] Samples.zero_key 3 2 0
              eq_refl eq_refl ltac:(lia) ltac:(lia))
    as (shares & w' & E & H).
  exists shares, w'. split; [exact E|].
  apply H; [discriminate | reflexivity].
Defined.

(** X23 — With a password every accepted key comes back.  A key accepted
    by the key check (upper case or a leading 0 included), split with a
    non-empty password and written to the share file, is printed exactly
    by [restore] reading that file with the same password. *)
Theorem X23_protected_key_through_the_share_file (L : Libraries) :
  share_returns_n L -> combine_recovers L ->
  AES_round_trip L -> AES_prints_base64 L ->
  forall (key : option jsstring) (typed r pw : jsstring) (n t : Z)
         (w w' : World) (shares : list jsstring),
    checkPrivateKey key typed = Ok r -> pw <> [] ->
    createShares r n t (Some pw) w = (Ok shares, w') ->
    forall disk name answer w2,
      name <> [] -> disk name = Ok (sharesFileContent shares) ->
      fst (restoreKey {| Commands.shares := None; file := Some name;
                         password := Some pw |} disk answer w2)
      = Ok r.
Proof.
  intros Hret Hrec Hrt Hb64 key typed r pw n t w w' written Hcheck Hpw Hcreate
    disk name answer w2 Hname Hdisk.
  pose proof (accepted_key_is_hex _ _ _ Hcheck) as Hkey.
  assert (Hne : r <> []) by (destruct r; [discriminate | discriminate]).
  destruct (restore_all_protected r pw n t w w' written w2
              Hret Hrec Hrt Hb64 Hne Hpw Hcreate) as (Hlong & Hwords & Hrestore).
  assert (Hload : loadShares {| Commands.shares := None; file := Some name;
                                password := Some pw |} disk answer = Ok written).
  { unfold loadShares. cbn [file]. rewrite (given_nonempty _ Hname), Hdisk.
    f_equal. apply share_file_read.
    eapply Forall_impl; [|exact Hwords]. intros share. apply word_is_trimmed. }
  rewrite (restoreKey_outcome _ _ _ _ _ Hload Hlong). cbn [password].
  destruct (restoreSecret written (Some pw) w2) as [[s|m] w3]; cbn [fst] in Hrestore;
    [|discriminate].
  injection Hrestore as ->.
  rewrite (hex_key_is_private_key _ Hkey), orb_true_r. reflexivity.
Qed.

Lemma X23_protected_key_through_the_share_file_witness :
  let shares :=
    Samples.shares_of Samples.zero_key 3 2 (Some Samples.password) in
  fst (restoreKey (L := Reference.packages)
         {| Commands.shares := None; file := Some (js "shares.txt");
            Commands.password := Some Samples.password |}
         (fun _ => Ok (sharesFileContent shares)) [] 0)
  = Ok Samples.zero_key.
Proof.
  intros shares.
  apply (X23_protected_key_through_the_share_file Reference.packages
           ReferenceFacts.returns_n ReferenceFacts.recovers
           ReferenceFacts.round_trip ReferenceFacts.prints_base64
           (Some Samples.zero_key) [] Samples.zero_key Samples.password 3 2 0 5
           shares eq_refl ltac:(discriminate) ltac:(vm_compute; reflexivity));
    [discriminate | reflexivity].
Defined.

(** X24 — From [generate --output] to [restore --file].  A mnemonic of 12
    or more words of letters a-z (not 32 characters long), split without
    password and written to the file of [generate], is printed by
    [restore] reading that file. *)
Theorem X24_mnemonic_through_the_generated_file (L : Libraries) :
  share_accepts L -> share_returns_n L -> combine_recovers L ->
  share_prints_words L ->
  forall (mnemonic date address : jsstring) (n t : Z) (w : World),
    passphrase mnemonic = true -> len mnemonic <> 32 ->
    ~ In 10 date -> ~ In 10 address ->
    2 <= t <= n -> n <= 255 ->
    exists shares w',
      createShares mnemonic n t None w = (Ok shares, w')
      /\ forall disk name answer w2,
           name <> [] ->
           disk name = Ok (generatedFileContent date address mnemonic n t shares) ->
           fst (restoreKey {| shares := None; file := Some name; password := None |}
                  disk answer w2)
           = Ok mnemonic.
Proof.
  intros Hacc Hret Hrec Hwords mnemonic date address n t w Hphrase Hlen
    Hdate Haddress Ht Hn.
  destruct (CodecFacts.passphrase_codec _ Hphrase Hlen)
    as (Hcanon & Hlower & Hback & Hhex).
  destruct (CodecFacts.passphrase_shape _ Hphrase)
    as (Hascii & Hspace & c & s' & Hshape & Hc).
  destruct (Hacc (stringToHex mnemonic) n t w) as (written & w' & E);
    [now rewrite Hcanon | assumption | assumption|].
  exists written, w'. rewrite createShares_plain by auto. rewrite E.
  split; [reflexivity|].
  intros disk name answer w2 Hname Hdisk.
  destruct (Hret _ _ _ _ _ _ E) as [Hcount _].
  assert (Hunits : Forall (fun u => is_lower u = true \/ u = 32) mnemonic).
  { unfold passphrase in Hphrase. apply andb_true_iff in Hphrase as [Hw _].
    destruct (CodecFacts.split_cons 32 mnemonic) as (p & ps & Ep).
    rewrite Ep in Hw. cbn [forallb] in Hw. apply andb_true_iff in Hw as [Hp Hps].
    exact (CodecFacts.split_units is_lower mnemonic p ps Ep
             (CodecFacts.test_all_forallb _ _ Hp) Hps). }
  assert (Hnl : ~ In 10 mnemonic).
  { intros Hin. rewrite Forall_forall in Hunits.
    destruct (Hunits 10 Hin) as [H|H]; discriminate. }
  assert (Hload : loadShares {| shares := None; file := Some name; password := None |}
                    disk answer = Ok written).
  { unfold loadShares. cbn [file]. rewrite (given_nonempty _ Hname), Hdisk.
    f_equal. apply generated_file_read; try assumption.
    eapply Forall_impl; [|exact (Hwords _ _ _ _ _ _ E)].
    intros share. apply word_is_trimmed. }
  rewrite (restoreKey_outcome _ _ _ _ _ Hload) by lia. cbn [password].
  pose proof (restore_all_plain mnemonic n t w written w' w2 Hrec Hret E Ht)
    as Hrestore.
  rewrite Hcanon, Hlower, Hback in Hrestore.
  destruct (restoreSecret written None w2) as [[s|m] w3]; cbn [fst] in Hrestore;
    [|discriminate].
  injection Hrestore as ->.
  assert (Hmn : isMnemonic mnemonic = true).
  { unfold isMnemonic. unfold passphrase in Hphrase.
    apply andb_true_iff in Hphrase as [_ Hcount12]. rewrite Hcount12, andb_true_r.
    rewrite Hshape in *. unfold test_all. apply forallb_forall. intros u Hu.
    rewrite Forall_forall in Hunits. destruct (Hunits u Hu) as [H| ->];
      [now rewrite H | reflexivity]. }
  rewrite Hmn. reflexivity.
Qed.

Lemma X24_mnemonic_through_the_generated_file_witness :
  exists shares w',
    createShares (L := Reference.packages) Samples.test_mnemonic 5 3 None 0
    = (Ok shares, w')
    /\ fst (restoreKey (L := Reference.packages)
              {| Commands.shares := None; file := Some (js "wallet.txt");
                 Commands.password := None |}
              (fun _ => Ok (generatedFileContent (js "2024-05-17T09:30:00.000Z")
                              (js "0x9858EfFD232B4033E47d90003D41EC34EcaEda94")
                              Samples.test_mnemonic 5 3 shares)) [] w')
       = Ok Samples.test_mnemonic.
Proof.
  destruct (X24_mnemonic_through_the_generated_file Reference.packages
              ReferenceFacts.accepts ReferenceFacts.returns_n
              ReferenceFacts.recovers ReferenceWords.prints_words
              Samples.test_mnemonic (js "2024-05-17T09:30:00.000Z")
              (js "0x9858EfFD232B4033E47d90003D41EC34EcaEda94") 5 3 0
              eq_refl ltac:(vm_compute; discriminate)
              ltac:(apply absent; reflexivity) ltac:(apply absent; reflexivity)
              ltac:(lia) ltac:(lia))
    as (shares & w' & E & H).
  exists shares, w'. split; [exact E|].
  apply H; [discriminate | reflexivity].
Defined.


(* ================================================================== *)
(** ** Properties of the PDF file names *)

(** X25 — The base of a PDF file name is safe.  Whatever the title, the
    base name is not empty, holds only a-z, 0-9 and hyphens, does not
    begin or end with a hyphen and has no two hyphens in a row. *)
Theorem X25_base_name_is_clean (lowered : option jsstring) :
  let name := baseName lowered in
  name <> []
  /\ forallb (fun c => is_lower c || is_digit c || (c =? 45)) name = true
  /\ (forall rest, name <> js "-" ++ rest)
  /\ (forall front, name <> front ++ js "-")
  /\ (forall front rest, name <> front ++ js "--" ++ rest).
Proof.
  destruct (baseName_shape lowered) as (Hne & Hok & Hone & Hhead & Htail).
  cbv zeta. split; [exact Hne|]. split; [exact Hok|]. split; [exact Hhead|].
  split; [exact Htail|]. intros front rest E. rewrite E in Hone.
  change (front ++ js "--" ++ rest) with (front ++ 45 :: 45 :: rest) in Hone.
  now rewrite single_no_double in Hone.
Qed.

(** X26 — No two shares get the same PDF file name.  For one title,
    different share numbers give different file names, even when the
    totals or the days differ. *)
Theorem X26_file_names_differ (lowered : option jsstring)
    (i j total total' : Z) (day day' : jsstring) :
  0 < i -> 0 < j -> i <> j ->
  generateFilename lowered i total day <> generateFilename lowered j total' day'.
Proof.
  intros Hi Hj Hij E. unfold generateFilename in E.
  apply app_inv_head in E. apply app_inv_head in E.
  destruct i as [|p|p], j as [|q|q]; try lia.
  unfold padStart in E.
  change (js "-of-" ++ ?x) with (45 :: (js "of-" ++ x)) in E.
  apply digits_before in E;
    [|apply padded_decimal_digits | apply padded_decimal_digits | reflexivity].
  apply padded_decimal_inj in E. congruence.
Qed.

Lemma X26_file_names_differ_witness :
  generateFilename (Some (js "ethereum private key share")) 1 5 (js "2024-05-17")
  <> generateFilename (Some (js "ethereum private key share")) 2 5 (js "2024-05-17").
Proof. apply X26_file_names_differ; lia. Defined.
